(** * nodegui-maintainer-tools: the binding generator

    A shallow embedding of the latest version of the generator (the one
    with [parseMethodSignature], [expandMethod], [expandProperty] and
    [process], which knows the [// CLASS:] and the [// PROP:] header) and
    the properties of it that the specification states.

    JavaScript strings are sequences of UTF-16 code units; they are modelled
    as lists of [N].  Exceptions are modelled by the result type [res]; the
    values that the program throws, returns from [expandMethod] /
    [expandProperty] and inspects in [process] are the small universe
    [value].  [console.log] is modelled by the list of logged strings. *)

From Stdlib Require Import List String Ascii NArith Arith Lia Bool DecimalString.
Import ListNotations.

(* String literals are read as [string]; [++] stays the append of lists. *)
Open Scope string_scope.
Open Scope list_scope.

(** ** JavaScript strings *)

Module JS.

Definition char := N.
Definition str := list char.

(** A source-text literal (all literals of the program are ASCII). *)
Fixpoint lit (s : string) : str :=
  match s with
  | EmptyString => []
  | String a s' => N_of_ascii a :: lit s'
  end.

(** The line feed of the template literals and the double quote. *)
Definition nl : str := [10%N].
Definition dq : str := [34%N].

Fixpoint eqb (a b : str) : bool :=
  match a, b with
  | [], [] => true
  | x :: a', y :: b' => N.eqb x y && eqb a' b'
  | _, _ => false
  end.

Definition isEmpty (s : str) : bool :=
  match s with [] => true | _ => false end.

(** [Array.prototype.includes] on an array of strings. *)
Definition includes (xs : list str) (x : str) : bool :=
  existsb (eqb x) xs.

(** WhiteSpace and LineTerminator code units: what [trim] strips and what
    the regular-expression class [\s] matches. *)
Definition isWhiteSpace (c : char) : bool :=
  existsb (N.eqb c)
    [9; 10; 11; 12; 13; 32; 160; 5760; 8232; 8233; 8239; 8287; 12288; 65279]%N
  || (N.leb 8192 c && N.leb c 8202).

Fixpoint dropWhile (p : char -> bool) (s : str) : str :=
  match s with
  | [] => []
  | c :: s' => if p c then dropWhile p s' else s
  end.

(** [String.prototype.trim] *)
Definition trim (s : str) : str :=
  rev (dropWhile isWhiteSpace (rev (dropWhile isWhiteSpace s))).

(** [s.split(sep)] for a one-character separator. *)
Fixpoint split (sep : char) (s : str) : list str :=
  match s with
  | [] => [[]]
  | c :: s' =>
      if N.eqb c sep then [] :: split sep s'
      else match split sep s' with
           | h :: t => (c :: h) :: t
           | [] => [[c]]
           end
  end.

(** [xs.join(sep)] *)
Fixpoint join (sep : str) (xs : list str) : str :=
  match xs with
  | [] => []
  | [x] => x
  | x :: xs' => x ++ sep ++ join sep xs'
  end.

(** [s.startsWith(p)] *)
Fixpoint startsWith (p s : str) : bool :=
  match p, s with
  | [], _ => true
  | x :: p', y :: s' => N.eqb x y && startsWith p' s'
  | _ :: _, [] => false
  end.

(** [s.substr(n)] and [s.slice(n)] for [0 <= n]; [s.substr(0, n)]. *)
Definition substr (n : nat) (s : str) : str := skipn n s.
Definition slice (n : nat) (s : str) : str := skipn n s.
Definition substr0 (n : nat) (s : str) : str := firstn n s.

(** [toLowerCase] of one code unit.  The program lower-cases characters of
    a method name only, which the signature grammar restricts to
    [[A-Za-z0-9_]]; on those the mapping is the ASCII one. *)
Definition lowerChar (c : char) : char :=
  if N.leb 65 c && N.leb c 90 then (c + 32)%N else c.

Definition toLowerCase (s : str) : str := map lowerChar s.

(** The decimal text of a loop index, as a template literal prints it. *)
Definition decimal (n : nat) : str :=
  lit (NilEmpty.string_of_uint (Nat.to_uint n)).

(** The values the program throws and passes around:
    strings, the two tagged result objects, and [Error] instances. *)
Inductive value : Type :=
| VString (s : str)
| VFailed (message : value)
| VOk (methodDeclaration napiInit methodBody tsBody : option str)
| VError (message : str)
| VTypeError (message : str).

(** Reading the property [type] of a value; [None] is [undefined]. *)
Definition typeOf (v : value) : option str :=
  match v with
  | VFailed _ => Some (lit "failed")
  | VOk _ _ _ _ => Some (lit "ok")
  | _ => None
  end.

(** String conversion inside a template literal. *)
Definition toString (v : value) : str :=
  match v with
  | VString s => s
  | VFailed _ | VOk _ _ _ _ => lit "[object Object]"
  | VError m => lit "Error: " ++ m
  | VTypeError m => lit "TypeError: " ++ m
  end.

(** Computations that return or throw. *)
Inductive res (A : Type) : Type :=
| OK (a : A)
| Throw (v : value).
Arguments OK {A} a.
Arguments Throw {A} v.

Definition bind {A B} (m : res A) (f : A -> res B) : res B :=
  match m with
  | OK a => f a
  | Throw v => Throw v
  end.

(** What the engine throws on reading a property of [undefined]. *)
Definition undefinedRead (prop : string) : value :=
  VTypeError (lit "Cannot read properties of undefined (reading '"
              ++ lit prop ++ lit "')").

End JS.

Import JS.

Notation "x <- m ;; f" := (bind m (fun x => f))
  (at level 61, m at next level, right associativity).

(** ** Regular expressions

    The fragment of JavaScript regular expressions the program uses:
    literals, character classes, greedy [*] and [+] on a class, a greedy
    optional group and named capture groups, matched by backtracking. *)

Module Regex.

Inductive regex : Type :=
| RLit (s : str)
| RClass (p : char -> bool)
| RStar (p : char -> bool)
| RPlus (p : char -> bool)
| ROpt (r : regex)
| RSeq (r1 r2 : regex)
| RGroup (name : string) (r : regex).

Definition captures := list (string * str).

(** Greedy repetition of a class: the longest run first, then shorter ones. *)
Fixpoint star {A} (p : char -> bool) (s : str) (k : str -> option A) : option A :=
  match s with
  | c :: s' =>
      if p c then
        match star p s' k with
        | Some r => Some r
        | None => k s
        end
      else k s
  | [] => k s
  end.

Fixpoint stripPrefix (p s : str) : option str :=
  match p, s with
  | [], _ => Some s
  | x :: p', y :: s' => if N.eqb x y then stripPrefix p' s' else None
  | _ :: _, [] => None
  end.

Fixpoint matchAt {A} (r : regex) (s : str) (caps : captures)
         (k : str -> captures -> option A) : option A :=
  match r with
  | RLit l =>
      match stripPrefix l s with
      | Some s' => k s' caps
      | None => None
      end
  | RClass p =>
      match s with
      | c :: s' => if p c then k s' caps else None
      | [] => None
      end
  | RStar p => star p s (fun s' => k s' caps)
  | RPlus p =>
      match s with
      | c :: s' => if p c then star p s' (fun s'' => k s'' caps) else None
      | [] => None
      end
  | ROpt r' =>
      match matchAt r' s caps k with
      | Some x => Some x
      | None => k s caps
      end
  | RSeq r1 r2 => matchAt r1 s caps (fun s' caps' => matchAt r2 s' caps' k)
  | RGroup name r' =>
      matchAt r' s caps
        (fun s' caps' =>
           k s' ((name, firstn (List.length s - List.length s') s) :: caps'))
  end.

(** [s.match(r)] for a regular expression without flags: the leftmost
    match; [None] is [null]. *)
Fixpoint search (r : regex) (s : str) : option captures :=
  match matchAt r s [] (fun _ caps => Some caps) with
  | Some caps => Some caps
  | None =>
      match s with
      | [] => None
      | _ :: s' => search r s'
      end
  end.

(** [found.groups.name] *)
Fixpoint group (name : string) (caps : captures) : str :=
  match caps with
  | [] => []
  | (n, v) :: caps' => if String.eqb n name then v else group name caps'
  end.

Definition inRange (lo hi : N) (c : char) : bool := N.leb lo c && N.leb c hi.
Definition isDigit : char -> bool := inRange 48 57.
Definition isUpper : char -> bool := inRange 65 90.
Definition isLower : char -> bool := inRange 97 122.

(** [\w] *)
Definition isWord (c : char) : bool :=
  isUpper c || isLower c || isDigit c || N.eqb c 95.

Definition seq (rs : list regex) : regex :=
  fold_right RSeq (RLit []) rs.

End Regex.

Import Regex.

(** ** The generator *)

Module Gen.

Definition ws : char -> bool := isWhiteSpace.

(** [/\/\/\s+CLASS:\s+(?<className>\w+)/] *)
Definition classNameRegex : regex :=
  seq [RLit (lit "//"); RPlus ws; RLit (lit "CLASS:"); RPlus ws;
       RGroup "className" (RPlus isWord)].

(** [/\/\/\s+PROP:\s+(?<className>\w+)/] *)
Definition propNameRegex : regex :=
  seq [RLit (lit "//"); RPlus ws; RLit (lit "PROP:"); RPlus ws;
       RGroup "className" (RPlus isWord)].

(** The signature pattern, piece by piece:
    [//], [\s+], [TODO:], [\s+], [(virtual\s+)?],
    [(?<returnType>[\w:]+)], [\s+], [\&?], [\*?], [\s*],
    [(?<methodName>[A-Za-z0-9_]+)], an opening parenthesis,
    [(?<args>...)] holding any run of characters other than a closing
    parenthesis, and a closing parenthesis. *)
Definition sigRegex : regex :=
  seq [RLit (lit "//"); RPlus ws; RLit (lit "TODO:"); RPlus ws;
       ROpt (RSeq (RLit (lit "virtual")) (RPlus ws));
       RGroup "returnType" (RPlus (fun c => isWord c || N.eqb c 58));
       RPlus ws;
       ROpt (RLit (lit "&")); ROpt (RLit (lit "*")); RStar ws;
       RGroup "methodName"
         (RPlus (fun c => isUpper c || isLower c || isDigit c || N.eqb c 95));
       RClass (fun c => N.eqb c 40);
       RGroup "args" (RStar (fun c => negb (N.eqb c 41)));
       RLit (lit ")")].

(** *** Argument types *)

Definition SUPPORTED_ARG_TYPES : list str := map lit
  ["GLenum"; "GLfloat"; "GLint"; "GLuint"; "GLsizei"; "GLclampf"; "GLboolean";
   "const QModelIndex"; "int"; "const QPoint"; "QPoint";
   "QItemSelectionModel::SelectionFlags";
   "QAbstractItemView::CursorAction"; "QAbstractItemView::ScrollHint";
   "const QString";
   "QHeaderView::ResizeMode"; "Qt::SortOrder"; "bool"; "Qt::Alignment";
   "Qt::Orientation";
   "uint"; "Qt::TextElideMode"; "QSizePolicy::Policy"; "QWidget";
   "QComboBox::InsertPolicy";
   "QComboBox::SizeAdjustPolicy"; "const QSize"; "QIcon::Mode"; "QIcon::State";
   "const QPixmap";
   "QPainter"; "Qt::AspectRatioMode"; "const QSizeF"; "qreal"; "QAction";
   "QMenu"; "const QIcon";
   "Qt::Corner"].

Definition isSupportedArgType (argName : str) : bool :=
  includes SUPPORTED_ARG_TYPES argName.

(** Argument types which are dereferenced with [*] in the method call. *)
Definition DEREFERENCE_TYPES : list str := map lit
  ["const QModelIndex"; "const QPoint"; "const QSize"; "const QPixmap";
   "QPainter"; "const QSizeF"; "QPoint";
   "const QIcon"].

Definition TS_WRAPPER_TYPES : list str := map lit
  ["const QModelIndex"; "QPainter"; "const QPixmap"; "QAction"; "QMenu";
   "QPoint"; "const QIcon"; "const QPoint"].

(** *** Return types *)

Definition SUPPORTED_RETURN_TYPES : list str := map lit
  ["void"; "GLfloat"; "GLenum"; "GLboolean"; "GLint"; "GLuint"; "GLclampf";
   "GLsizei"; "bool"; "QModelIndex"; "QModelIndexList"; "Qt::Alignment"; "int";
   "Qt::Orientation"; "Qt::SortOrder"; "QHeaderView::ResizeMode"; "QRect";
   "QString"; "QSize"; "QComboBox::InsertPolicy"; "QComboBox::SizeAdjustPolicy";
   "Qt::ContextMenuPolicy"; "QIcon"; "Qt::WindowFlags"; "QWidget"; "QSizeF";
   "qreal"; "QAction"; "QMenu"].

Definition isSupportedReturnType (returnName : str) : bool :=
  includes SUPPORTED_RETURN_TYPES returnName.

Record CppArgument : Type := { type : str; name : str }.

Record MethodSignature : Type :=
  { args : list CppArgument; methodName : str; returnType : str }.

(** A [switch] label group: [isCase t ["a"; "b"]] is [case 'a': case 'b':]. *)
Definition isCase (t : str) (labels : list string) : bool :=
  includes (map lit labels) t.

(** *** parseArgs *)

Definition parseArg (part : str) (result : list CppArgument)
  : list CppArgument :=
  let argParts := split 32%N (trim part) in
  let type := join (lit " ") (removelast argParts) in
  let name := last argParts [] in
  let name :=
    if startsWith (lit "&") name || startsWith (lit "*") name
    then substr 1 name else name in
  if isEmpty name then result
  else result ++ [{| type := type; name := name |}].

Definition parseArgs (args : str) : list CppArgument :=
  let parts := split 44%N args in
  fold_left (fun result part => parseArg part result) parts [].

(** *** parseMethodSignature *)

Definition failed (message : str) : value := VFailed (VString message).

Fixpoint checkArgTypes (signature : str) (args : list CppArgument)
  : res unit :=
  match args with
  | [] => OK tt
  | arg :: rest =>
      if negb (isSupportedArgType (type arg)) then
        Throw (failed (lit "Argument type '" ++ type arg
                       ++ lit "' is unknown for signature '" ++ signature
                       ++ lit "'."))
      else checkArgTypes signature rest
  end.

Definition parseMethodSignature (signature : str) : res MethodSignature :=
  match search sigRegex signature with
  | None =>
      Throw (failed (lit "Signature didn't match regex for '" ++ signature
                     ++ lit "'."))
  | Some found =>
      let returnTypeString := group "returnType" found in
      if negb (isSupportedReturnType returnTypeString) then
        Throw (failed (lit "Return type '" ++ returnTypeString
                       ++ lit "' is unknown for signature '" ++ signature
                       ++ lit "'."))
      else
        let args := parseArgs (group "args" found) in
        _ <- checkArgTypes signature args ;;
        OK {| args := args;
              methodName := group "methodName" found;
              returnType := returnTypeString |}
  end.

(** *** formatTSMethodName *)

Definition formatTSMethodName (methodName : str) : str :=
  if startsWith (lit "gl") methodName then
    let body := substr 2 methodName in
    toLowerCase (substr0 1 body) ++ substr 1 body
  else methodName.

(** *** formatCppMethodBody *)

(** [info[${i}]] *)
Definition info (i : nat) : str := lit "info[" ++ decimal i ++ lit "]".

(** The statement shape shared by the enumeration cases:
    [  T ${arg.name} = static_cast<T>(info[${i}].As<Napi::Number>().Int32Value());] *)
Definition enumCast (T : string) (i : nat) (n : str) : str :=
  lit "  " ++ lit T ++ lit " " ++ n ++ lit " = "
  ++ lit "static_cast<" ++ lit T ++ lit ">(" ++ info i
  ++ lit ".As<Napi::Number>().Int32Value());".

(** The statement shape shared by the wrapped-object cases; the second
    line is indented by two blanks in some cases and by four in others:
    [  TWrap* ${arg.name}Wrap = Napi::ObjectWrap<TWrap>::Unwrap(info[${i}].As<Napi::Object>());]
    [  T* ${arg.name} = ${arg.name}Wrap->getInternalInstance();] *)
Definition unwrapObject (T indent : string) (i : nat) (n : str) : str :=
  lit "  " ++ lit T ++ lit "Wrap* " ++ n ++ lit "Wrap = Napi::ObjectWrap<"
  ++ lit T ++ lit "Wrap>::Unwrap(" ++ info i ++ lit ".As<Napi::Object>());"
  ++ nl
  ++ lit indent ++ lit T ++ lit "* " ++ n ++ lit " = " ++ n
  ++ lit "Wrap->getInternalInstance();".

(** The statement shape shared by the number and boolean cases:
    [  ${arg.type} ${arg.name} = info[${i}].As<Napi::K>().V();] *)
Definition readPrimitive (conv : string) (t : str) (i : nat) (n : str) : str :=
  lit "  " ++ t ++ lit " " ++ n ++ lit " = " ++ info i ++ lit conv.

(** The [switch (arg.type)] of the argument loop. *)
Definition argExtraction (i : nat) (arg : CppArgument) : res str :=
  let t := type arg in
  let n := name arg in
  if isCase t ["GLboolean"; "bool"] then
    OK (readPrimitive ".As<Napi::Boolean>().Value();" t i n)
  else if isCase t ["GLclampf"; "GLfloat"; "qreal"] then
    OK (readPrimitive ".As<Napi::Number>().FloatValue();" t i n)
  else if isCase t ["GLenum"; "GLint"; "GLsizei"; "int"] then
    OK (readPrimitive ".As<Napi::Number>().Int32Value();" t i n)
  else if isCase t ["GLuint"; "uint"] then
    OK (readPrimitive ".As<Napi::Number>().Uint32Value();" t i n)
  else if isCase t ["const QModelIndex"] then
    OK (unwrapObject "QModelIndex" "  " i n)
  else if isCase t ["const QPoint"] then
    OK (unwrapObject "QPoint" "  " i n)
  else if isCase t ["const QSize"] then
    OK (unwrapObject "QSize" "  " i n)
  else if isCase t ["const QSizeF"] then
    OK (unwrapObject "QSizeF" "  " i n)
  else if isCase t ["QItemSelectionModel::SelectionFlags"] then
    OK (enumCast "QItemSelectionModel::SelectionFlags" i n)
  else if isCase t ["QAbstractItemView::CursorAction"] then
    OK (enumCast "QAbstractItemView::CursorAction" i n)
  else if isCase t ["QAbstractItemView::ScrollHint"] then
    OK (enumCast "QAbstractItemView::ScrollHint" i n)
  else if isCase t ["const QString"] then
    OK (lit "  std::string " ++ n ++ lit "NapiText = " ++ info i
        ++ lit ".As<Napi::String>().Utf8Value();" ++ nl
        ++ lit "  QString " ++ n ++ lit " = " ++ lit "QString::fromUtf8(" ++ n
        ++ lit "NapiText.c_str());")
  else if isCase t ["QHeaderView::ResizeMode"] then
    OK (enumCast "QHeaderView::ResizeMode" i n)
  else if isCase t ["Qt::SortOrder"] then
    OK (enumCast "Qt::SortOrder" i n)
  else if isCase t ["QComboBox::InsertPolicy"] then
    OK (enumCast "QComboBox::InsertPolicy" i n)
  else if isCase t ["QComboBox::SizeAdjustPolicy"] then
    OK (enumCast "QComboBox::SizeAdjustPolicy" i n)
  else if isCase t ["Qt::TextElideMode"] then
    OK (enumCast "Qt::TextElideMode" i n)
  else if isCase t ["Qt::Alignment"] then
    OK (enumCast "Qt::Alignment" i n)
  else if isCase t ["Qt::Orientation"] then
    OK (enumCast "Qt::Orientation" i n)
  else if isCase t ["Qt::AspectRatioMode"] then
    OK (enumCast "Qt::AspectRatioMode" i n)
  else if isCase t ["QSizePolicy::Policy"] then
    OK (enumCast "QSizePolicy::Policy" i n)
  else if isCase t ["QWidget"] then
    OK (lit "  Napi::Object " ++ n ++ lit "WidgetObject = " ++ info i
        ++ lit ".As<Napi::Object>();" ++ nl
        ++ lit "    NodeWidgetWrap* " ++ n ++ lit "WidgetWrap =" ++ nl
        ++ lit "        Napi::ObjectWrap<NodeWidgetWrap>::Unwrap(" ++ n
        ++ lit "WidgetObject);" ++ nl
        ++ lit "    QWidget *" ++ n ++ lit " = " ++ n
        ++ lit "WidgetWrap->getInternalInstance();")
  else if isCase t ["QIcon::Mode"] then
    OK (enumCast "QIcon::Mode" i n)
  else if isCase t ["QIcon::State"] then
    OK (enumCast "QIcon::State" i n)
  else if isCase t ["const QPixmap"] then
    OK (unwrapObject "QPixmap" "    " i n)
  else if isCase t ["QPainter"] then
    OK (unwrapObject "QPainter" "    " i n)
  else if isCase t ["QAction"] then
    OK (unwrapObject "QAction" "    " i n)
  else if isCase t ["QMenu"] then
    OK (unwrapObject "QMenu" "    " i n)
  else if isCase t ["const QIcon"] then
    OK (unwrapObject "QIcon" "    " i n)
  else if isCase t ["Qt::Corner"] then
    OK (enumCast "Qt::Corner" i n)
  else
    Throw (VError (lit "formatCppMethodBody(): Unexpected arg type '" ++ t
                   ++ lit "' while processing C++ body.")).

(** The argument loop: [methodBody] grows by one statement and a line
    feed per argument; a throw leaves the loop. *)
Fixpoint extractArgs (i : nat) (args : list CppArgument) (methodBody : str)
  : res str :=
  match args with
  | [] => OK methodBody
  | arg :: rest =>
      stmt <- argExtraction i arg ;;
      extractArgs (S i) rest (methodBody ++ stmt ++ nl)
  end.

(** The first [switch (returnType)]: the declaration of [result]. *)
Definition resultDeclaration (returnType : str) : str :=
  if isCase returnType ["void"] then lit "  "
  else if isCase returnType ["QAction"; "QMenu"] then
    lit "  " ++ returnType ++ lit "* result = "
  else lit "  " ++ returnType ++ lit " result = ".

(** [args.map(arg => DEREFERENCE_TYPES.includes(arg.type) ? `*${arg.name}` : arg.name)] *)
Definition callArgument (arg : CppArgument) : str :=
  if includes DEREFERENCE_TYPES (type arg) then lit "*" ++ name arg
  else name arg.

(** The shape shared by the value-type results; the indentation of the
    second and third line differs between [QModelIndex] and the others. *)
Definition newWrapper (T indent2 indent3 : string) : str :=
  lit "  auto resultInstance = " ++ lit T ++ lit "Wrap::constructor.New(" ++ nl
  ++ lit indent2 ++ lit "{Napi::External<" ++ lit T ++ lit ">::New(env, new "
  ++ lit T ++ lit "(result))});" ++ nl
  ++ lit indent3 ++ lit "return resultInstance;".

(** The second [switch (returnType)]: packing the result. *)
Definition resultPacking (returnType : str) : res str :=
  if isCase returnType ["void"] then OK (lit "  return env.Null();")
  else if isCase returnType
            ["int"; "GLclampf"; "GLfloat"; "GLenum"; "GLint"; "GLuint";
             "GLsizei"; "qreal"] then
    OK (lit "  return Napi::Number::New(env, result);")
  else if isCase returnType
            ["Qt::Alignment"; "Qt::Orientation"; "QHeaderView::ResizeMode";
             "Qt::SortOrder"; "QComboBox::InsertPolicy";
             "QComboBox::SizeAdjustPolicy"] then
    OK (lit "  return Napi::Number::New(env, static_cast<uint>(result));")
  else if isCase returnType ["GLboolean"; "bool"] then
    OK (lit "  return Napi::Boolean::New(env, result);")
  else if isCase returnType ["QModelIndex"] then
    OK (newWrapper "QModelIndex" "    " "  ")
  else if isCase returnType ["QModelIndexList"] then
    OK (lit "  Napi::Array resultArrayNapi = Napi::Array::New(env, result.size());"
        ++ nl
        ++ lit "  for (int i = 0; i < result.size(); i++) {" ++ nl
        ++ lit "    resultArrayNapi[i] = QModelIndexWrap::constructor.New({Napi::External<QModelIndex>::New(env, new QModelIndex(result[i]))});"
        ++ nl
        ++ lit "  }" ++ nl
        ++ lit "  return resultArrayNapi;")
  else if isCase returnType ["QRect"] then
    OK (newWrapper "QRect" "      " "    ")
  else if isCase returnType ["QSize"] then
    OK (newWrapper "QSize" "      " "    ")
  else if isCase returnType ["QSizeF"] then
    OK (newWrapper "QSizeF" "      " "    ")
  else if isCase returnType ["QString"] then
    OK (lit "  return Napi::String::New(env, result.toStdString());" ++ nl)
  else if isCase returnType ["QWidget"; "QAction"; "QMenu"] then
    OK (lit "  if (result) {" ++ nl
        ++ lit "        return WrapperCache::instance.getWrapper(env, result);"
        ++ nl
        ++ lit "      } else {" ++ nl
        ++ lit "        return env.Null();" ++ nl
        ++ lit "      }")
  else if isCase returnType ["QIcon"] then
    OK (newWrapper "QIcon" "      " "    ")
  else
    Throw (VError (lit "Unexpected return type " ++ returnType
                   ++ lit " while processing C++ body.")).

Definition formatCppMethodBody
  (className methodName : str) (args : list CppArgument) (returnType : str)
  : res str :=
  let methodBody :=
    nl ++ lit "Napi::Value " ++ className ++ lit "Wrap::" ++ methodName
    ++ lit "(const Napi::CallbackInfo& info) {" ++ nl
    ++ lit "  Napi::Env env = info.Env();" ++ nl in
  methodBody <- extractArgs 0 args methodBody ;;
  let methodBody := methodBody ++ resultDeclaration returnType in
  let methodBody :=
    methodBody ++ lit "this->instance->" ++ methodName ++ lit "(" in
  let methodBody := methodBody ++ join (lit ", ") (map callArgument args) in
  let methodBody := methodBody ++ lit ");" ++ nl in
  packing <- resultPacking returnType ;;
  let methodBody := methodBody ++ packing in
  OK (methodBody ++ nl ++ lit "}" ++ nl).

(** *** The typed surface *)

Definition mapCppToTsReturnType (returnType : str) : res str :=
  if isCase returnType ["void"] then OK (lit "void")
  else if isCase returnType ["GLboolean"; "bool"] then OK (lit "boolean")
  else if isCase returnType
            ["int"; "GLenum"; "GLfloat"; "GLint"; "GLuint"; "GLsizei"; "qreal"]
  then OK (lit "number")
  else if isCase returnType ["QModelIndex"] then OK returnType
  else if isCase returnType ["QModelIndexList"] then OK (lit "QModelIndex[]")
  else if isCase returnType ["QRect"] then OK (lit "QRect")
  else if isCase returnType ["Qt::Alignment"] then OK (lit "AlignmentFlag")
  else if isCase returnType ["Qt::Orientation"] then OK (lit "Orientation")
  else if isCase returnType ["QHeaderView::ResizeMode"] then
    OK (lit "QHeaderViewResizeMode")
  else if isCase returnType ["Qt::SortOrder"] then OK (lit "SortOrder")
  else if isCase returnType ["QComboBox::InsertPolicy"] then
    OK (lit "InsertPolicy")
  else if isCase returnType ["QComboBox::SizeAdjustPolicy"] then
    OK (lit "SizeAdjustPolicy")
  else if isCase returnType ["Qt::TextElideMode"] then OK (lit "TextElideMode")
  else if isCase returnType ["QSize"] then OK (lit "QSize")
  else if isCase returnType ["QSizeF"] then OK (lit "QSizeF")
  else if isCase returnType ["Qt::ContextMenuPolicy"] then
    OK (lit "ContextMenuPolicy")
  else if isCase returnType ["Qt::WindowFlags"] then OK (lit "WindowFlags")
  else if isCase returnType ["QString"] then OK (lit "string")
  else if isCase returnType ["QIcon"; "QWidget"; "QAction"; "QMenu"] then
    OK returnType
  else
    Throw (VError (lit "Unexpected return type " ++ returnType
                   ++ lit " while processing TypeScript.")).

Definition mapCppToTSArgumentType (argType argName : str) : res str :=
  if isCase argType ["GLboolean"; "bool"] then OK (lit "boolean")
  else if isCase argType
            ["GLclampf"; "GLenum"; "GLfloat"; "GLint"; "GLuint"; "GLsizei";
             "int"; "uint"; "qreal"] then OK (lit "number")
  else if isCase argType ["const QModelIndex"] then OK (lit "QModelIndex")
  else if isCase argType ["const QPoint"] then OK (lit "QPoint")
  else if isCase argType ["const QSize"] then OK (lit "QSize")
  else if isCase argType ["const QSizeF"] then OK (lit "QSizeF")
  else if isCase argType ["QItemSelectionModel::SelectionFlags"] then
    OK (lit "SelectionFlag")
  else if isCase argType ["QAbstractItemView::CursorAction"] then
    OK (lit "CursorAction")
  else if isCase argType ["QAbstractItemView::ScrollHint"] then
    OK (lit "ScrollHint")
  else if isCase argType ["QHeaderView::ResizeMode"] then
    OK (lit "QHeaderViewResizeMode")
  else if isCase argType ["Qt::SortOrder"] then OK (lit "SortOrder")
  else if isCase argType ["QComboBox::InsertPolicy"] then
    OK (lit "InsertPolicy")
  else if isCase argType ["QComboBox::SizeAdjustPolicy"] then
    OK (lit "SizeAdjustPolicy")
  else if isCase argType ["Qt::TextElideMode"] then OK (lit "TextElideMode")
  else if isCase argType ["Qt::Alignment"] then OK (lit "AlignmentFlag")
  else if isCase argType ["Qt::Orientation"] then OK (lit "Orientation")
  else if isCase argType ["Qt::AspectRatioMode"] then
    OK (lit "AspectRatioMode")
  else if isCase argType ["const QString"] then OK (lit "string")
  else if isCase argType ["QSizePolicy::Policy"] then
    OK (lit "QSizePolicyPolicy")
  else if isCase argType ["QWidget"] then OK (lit "QWidget")
  else if isCase argType ["QIcon::Mode"] then OK (lit "QIconMode")
  else if isCase argType ["QIcon::State"] then OK (lit "QIconState")
  else if isCase argType ["const QPixmap"] then OK (lit "QPixmap")
  else if isCase argType ["QPainter"] then OK (lit "QPainter")
  else if isCase argType ["QAction"] then OK (lit "QAction")
  else if isCase argType ["QMenu"] then OK (lit "QMenu")
  else if isCase argType ["const QIcon"] then OK (lit "QIcon")
  else if isCase argType ["Qt::Corner"] then OK (lit "Corner")
  else
    Throw (VError (lit "mapCppToTSArgumentType(): Unexpected argument type '"
                   ++ argType ++ lit "' specificed for argument '" ++ argName
                   ++ lit "' while processing TypeScript.")).

(** [args.map(arg => `${arg.name}: ${mapCppToTSArgumentType(arg.type, arg.name)}`)];
    the first argument without a rule throws. *)
Fixpoint tsParameters (args : list CppArgument) : res (list str) :=
  match args with
  | [] => OK []
  | arg :: rest =>
      t <- mapCppToTSArgumentType (type arg) (name arg) ;;
      ps <- tsParameters rest ;;
      OK ((name arg ++ lit ": " ++ t) :: ps)
  end.

(** The head shared by [formatTSMethod] and [formatTSProperty]:
    the method name, the typed parameters and the return type. *)
Definition tsHead (methodName : str) (args : list CppArgument)
  (returnType : str) : res str :=
  let tsBody := lit "    " ++ formatTSMethodName methodName ++ lit "(" in
  ps <- tsParameters args ;;
  let tsBody := tsBody ++ join (lit ", ") ps in
  r <- mapCppToTsReturnType returnType ;;
  OK (tsBody ++ lit "): " ++ r ++ lit " {" ++ nl).

Definition tsCallArgument (arg : CppArgument) : str :=
  if includes TS_WRAPPER_TYPES (type arg) then name arg ++ lit ".native"
  else name arg.

Definition formatTSMethod (methodName : str) (args : list CppArgument)
  (returnType : str) : res str :=
  tsBody <- tsHead methodName args returnType ;;
  let methodCall :=
    lit "this.native." ++ methodName ++ lit "("
    ++ join (lit ", ") (map tsCallArgument args) ++ lit ")" in
  let wrapped (T : string) :=
    lit "        return wrapperCache.getWrapper(" ++ methodCall
    ++ lit ") as " ++ lit T ++ lit ";" ++ nl in
  let constructed (T : string) :=
    lit "        return new " ++ lit T ++ lit "(" ++ methodCall ++ lit ");"
    ++ nl in
  let tsBody :=
    tsBody ++
    (if isCase returnType ["void"] then methodCall ++ lit ";" ++ nl
     else if isCase returnType ["QModelIndex"] then constructed "QModelIndex"
     else if isCase returnType ["QModelIndexList"] then
       lit "        const methodResult = " ++ methodCall ++ lit ";" ++ nl
       ++ lit "        return methodResult.map((item: any) => new QModelIndex(item));"
       ++ nl
     else if isCase returnType ["QRect"] then constructed "QRect"
     else if isCase returnType ["QSize"] then constructed "QSize"
     else if isCase returnType ["QSizeF"] then constructed "QSizeF"
     else if isCase returnType ["QWidget"] then wrapped "QWidget"
     else if isCase returnType ["QAction"] then wrapped "QAction"
     else if isCase returnType ["QMenu"] then wrapped "QMenu"
     else lit "        return " ++ methodCall ++ lit ";" ++ nl) in
  OK (tsBody ++ lit "    }" ++ nl).

(** [methodName[3].toLowerCase()]: the character at index 3 is [undefined]
    when the name has fewer than four characters. *)
Definition charAt3Lower (methodName : str) : res str :=
  match nth_error methodName 3 with
  | Some c => OK (toLowerCase [c])
  | None => Throw (undefinedRead "toLowerCase")
  end.

(** The [switch (returnType)] of [formatTSProperty]. *)
Definition propertyBody (methodName : str) (args : list CppArgument)
  (returnType : str) : res str :=
  let property := lit "this.property('" ++ methodName ++ lit "')" in
  let fromQVariant (T : string) :=
    lit "        return " ++ lit T ++ lit ".fromQVariant(" ++ property
    ++ lit ");" ++ nl in
  if isCase returnType ["void"] then
    c <- charAt3Lower methodName ;;
    OK (lit "this.setProperty('" ++ c ++ slice 4 methodName ++ lit "', "
        ++ join (lit ", ") (map name args) ++ lit ");" ++ nl)
  else if isCase returnType ["bool"] then
    OK (lit "        return " ++ property ++ lit ".toBool();" ++ nl)
  else if isCase returnType ["QString"] then
    OK (lit "        return " ++ property ++ lit ".toString();" ++ nl)
  else if isCase returnType
            ["Qt::WindowFlags"; "Qt::ContextMenuPolicy"; "int"; "uint"] then
    OK (lit "        return " ++ property ++ lit ".toInt();" ++ nl)
  else if isCase returnType ["QRect"] then OK (fromQVariant "QRect")
  else if isCase returnType ["QSize"] then OK (fromQVariant "QSize")
  else if isCase returnType ["QSizeF"] then
    OK (fromQVariant "QSizeF" ++ lit "  ")
  else if isCase returnType ["QIcon"] then OK (fromQVariant "QIcon")
  else OK (lit "        return " ++ property ++ lit ";" ++ nl).

Definition formatTSProperty (methodName : str) (args : list CppArgument)
  (returnType : str) : res str :=
  tsBody <- tsHead methodName args returnType ;;
  body <- propertyBody methodName args returnType ;;
  OK (tsBody ++ body ++ lit "    }" ++ nl).

(** *** expandMethod and expandProperty *)

Definition expandMethod (className signature : str) : value :=
  match
    (sig <- parseMethodSignature signature ;;
     let methodDeclaration :=
       lit "  Napi::Value " ++ methodName sig
       ++ lit "(const Napi::CallbackInfo& info);" ++ nl in
     let napiInit :=
       lit "       InstanceMethod(" ++ dq ++ methodName sig ++ dq ++ lit ", &"
       ++ className ++ lit "Wrap::" ++ methodName sig ++ lit ")," ++ nl in
     methodBody <-
       formatCppMethodBody className (methodName sig) (args sig)
         (returnType sig) ;;
     tsBody <- formatTSMethod (methodName sig) (args sig) (returnType sig) ;;
     OK (VOk (Some methodDeclaration) (Some napiInit) (Some methodBody)
           (Some tsBody)))
  with
  | OK result => result
  | Throw failedResult => VFailed failedResult
  end.

Definition expandProperty (signature : str) : value :=
  match
    (sig <- parseMethodSignature signature ;;
     tsBody <- formatTSProperty (methodName sig) (args sig) (returnType sig) ;;
     OK (VOk None None None (Some tsBody)))
  with
  | OK result => result
  | Throw failedResult => failedResult
  end.

(** *** process *)

(** The four arrays that [process] fills. *)
Record blocks : Type :=
  { cppDeclaration : list str;
    napiInitBlock : list str;
    bodyBlock : list str;
    tsBlock : list str }.

Definition noBlocks : blocks :=
  {| cppDeclaration := []; napiInitBlock := []; bodyBlock := [];
     tsBlock := [] |}.

(** [if (x != null) { xs.push(x); }] *)
Definition pushNonNull (xs : list str) (x : option str) : list str :=
  match x with
  | Some s => xs ++ [s]
  | None => xs
  end.

(** How [process] ends: it returns, or an exception escapes it; both
    carry what was logged. *)
Inductive outcome : Type :=
| Returned (logged : list str)
| Uncaught (logged : list str) (v : value).

(** The first loop,
    [while (lines[lineNumber].trim() === '' && lineNumber < lines.length)].
    [rest] is [lines] from index [lineNumber] on; when it is empty
    [lines[lineNumber]] is [undefined] and calling [trim] on it throws
    before the bound is compared. *)
Fixpoint skipBlankLines (rest : list str) (lineNumber : nat) : res nat :=
  match rest with
  | [] => Throw (undefinedRead "trim")
  | line :: rest' =>
      if isEmpty (trim line) then skipBlankLines rest' (S lineNumber)
      else OK lineNumber
  end.

(** How the second loop ends: at the end of the lines, or at the [return]
    of the [failed] case after logging one line. *)
Inductive loopExit : Type :=
| Completed (b : blocks)
| Aborted (logged : str).

Definition expandLine (isProp : bool) (className trimLine : str) : value :=
  if isProp then expandProperty trimLine
  else expandMethod className trimLine.

(** [switch (result.type)]: the cases [ok] and [failed]; a result with
    another [type] falls through the [switch]. *)
Definition handleResult (result : value) (b : blocks) : loopExit :=
  match result with
  | VOk methodDeclaration napiInit methodBody tsBody =>
      Completed
        {| cppDeclaration := pushNonNull (cppDeclaration b) methodDeclaration;
           napiInitBlock := pushNonNull (napiInitBlock b) napiInit;
           bodyBlock := pushNonNull (bodyBlock b) methodBody;
           tsBlock := pushNonNull (tsBlock b) tsBody |}
  | VFailed message => Aborted (lit ">>> ERROR: " ++ toString message)
  | _ => Completed b
  end.

(** The second loop, over the lines after the header. *)
Fixpoint bodyLoop (isProp : bool) (className : str) (rest : list str)
  (b : blocks) : loopExit :=
  match rest with
  | [] => Completed b
  | line :: rest' =>
      let trimLine := trim line in
      if isEmpty trimLine then bodyLoop isProp className rest' b
      else
        match handleResult (expandLine isProp className trimLine) b with
        | Completed b' => bodyLoop isProp className rest' b'
        | Aborted logged => Aborted logged
        end
  end.

Definition rule : str :=
  lit "//----------------------------------------------------".

(** One of the three guarded sections. *)
Definition section (title : string) (fragments : list str) : list str :=
  if Nat.eqb (List.length fragments) 0 then []
  else [rule; lit title; join [] fragments; []].

(** The log calls after the second loop. *)
Definition emit (className : str) (b : blocks) : list str :=
  [lit "// CLASS: " ++ className]
  ++ section "// C++ declaration" (cppDeclaration b)
  ++ section "// Napi declaration" (napiInitBlock b)
  ++ section "// C++ body" (bodyBlock b)
  ++ [rule; lit "// TS body"; join [] (tsBlock b)].

(** The header: the class pattern first, then the property pattern. *)
Definition matchHeader (line : str) : option (captures * bool) :=
  match search classNameRegex line with
  | Some found => Some (found, false)
  | None =>
      match search propNameRegex line with
      | Some found => Some (found, true)
      | None => None
      end
  end.

Definition processLines (lines : list str) : outcome :=
  match skipBlankLines lines 0 with
  | Throw e => Uncaught [] e
  | OK lineNumber =>
      if Nat.eqb lineNumber (List.length lines) then
        Returned [lit "ERROR: No non-blank lines were found."]
      else
        match matchHeader (nth lineNumber lines []) with
        | None =>
            Returned [lit "ERROR: Unable to find CLASS or PROP comment. i.e. // CLASS: FooBarWidget"]
        | Some (found, isProp) =>
            let className := group "className" found in
            match bodyLoop isProp className (skipn (S lineNumber) lines)
                    noBlocks with
            | Aborted logged => Returned [logged]
            | Completed b => Returned (emit className b)
            end
        end
  end.

Definition process (inputString : str) : outcome :=
  processLines (split 10%N inputString).

End Gen.

Import Gen.

(** ** The vocabulary of the properties *)

(** A blank line: [line.trim() === '']. *)
Definition blank (line : str) : Prop := trim line = [].

(** A line is passed by the second loop when it is blank or expands to a
    result of type [ok]. *)
Definition accepted (isProp : bool) (className line : str) : Prop :=
  blank line \/ typeOf (expandLine isProp className (trim line)) = Some (lit "ok").

(** [needle] occurs in [hay]. *)
Definition contains (needle hay : str) : Prop :=
  exists pre post, hay = pre ++ needle ++ post.

(** The supported argument types other than [QPoint]. *)
Definition typesWithRules : list str :=
  filter (fun t => negb (JS.eqb t (lit "QPoint"))) SUPPORTED_ARG_TYPES.

(** Whether a type has a case in the argument loop and in
    [mapCppToTSArgumentType], tried on the first position and an empty
    name. *)
Definition hasRules (t : str) : bool :=
  match argExtraction 0 {| type := t; name := [] |},
        mapCppToTSArgumentType t [] with
  | OK _, OK _ => true
  | _, _ => false
  end.

(** The property key of a setter: the method name without its first
    three characters, the first remaining character in lower case. *)
Definition propertyKey (methodName : str) : str :=
  match skipn 3 methodName with
  | c :: remaining => lowerChar c :: remaining
  | [] => []
  end.

(** A guarded section: absent when there are no fragments, and the rule,
    the title, the joined fragments and an empty line otherwise. *)
Definition guarded (title : string) (fragments logged : list str) : Prop :=
  (fragments = [] /\ logged = [])
  \/ (fragments <> []
      /\ logged = [rule; lit title; join [] fragments; []]).

(** A well-formed argument name: not empty and without a blank. *)
Definition properName (n : str) : Prop := n <> [] /\ ~ In 32%N n.


(** *** What a pattern matches

    The declarative reading of the patterns: [matches r w before after]
    says that [r] matches exactly the text [w], the named groups closed
    on the way being added to [before]. *)
Inductive matches : regex -> str -> captures -> captures -> Prop :=
| MLit (l : str) (caps : captures) : matches (RLit l) l caps caps
| MClass (p : char -> bool) (c : char) (caps : captures) :
    p c = true -> matches (RClass p) [c] caps caps
| MStar (p : char -> bool) (w : str) (caps : captures) :
    Forall (fun c => p c = true) w -> matches (RStar p) w caps caps
| MPlus (p : char -> bool) (w : str) (caps : captures) :
    w <> [] -> Forall (fun c => p c = true) w ->
    matches (RPlus p) w caps caps
| MOptSome (r : regex) (w : str) (caps caps' : captures) :
    matches r w caps caps' -> matches (ROpt r) w caps caps'
| MOptNone (r : regex) (caps : captures) : matches (ROpt r) [] caps caps
| MSeq (r1 r2 : regex) (w1 w2 : str) (c0 c1 c2 : captures) :
    matches r1 w1 c0 c1 -> matches r2 w2 c1 c2 ->
    matches (RSeq r1 r2) (w1 ++ w2) c0 c2
| MGroup (n : string) (r : regex) (w : str) (c0 c1 : captures) :
    matches r w c0 c1 -> matches (RGroup n r) w c0 ((n, w) :: c1).

(** A run of white space. *)
Definition whiteSpace (w : str) : Prop :=
  Forall (fun c => isWhiteSpace c = true) w.

(** A greedy run of class [p] ends before [rest]. *)
Definition stops (p : char -> bool) (rest : str) : Prop :=
  match rest with
  | [] => True
  | c :: _ => p c = false
  end.

(** A non-empty run of [[A-Za-z0-9_]]. *)
Definition identifier (n : str) : Prop :=
  n <> [] /\ Forall (fun c => isWord c = true) n.

(** A type as it is written in an argument list: not empty, not
    beginning with white space, without comma or closing parenthesis. *)
Definition plainType (t : str) : Prop :=
  t <> [] /\ dropWhile isWhiteSpace t = t
  /\ ~ In 44%N t /\ ~ In 41%N t.

(** An argument as it is written: the type, a blank, the name. *)
Definition render (a : CppArgument) : str := type a ++ lit " " ++ name a.

(** A signature line as the tool's input format has it. *)
Definition renderSignature (sig : MethodSignature) : str :=
  lit "//" ++ lit " " ++ lit "TODO:" ++ lit " " ++ returnType sig
  ++ lit " " ++ methodName sig ++ lit "("
  ++ join (lit ", ") (map render (args sig)) ++ lit ")".

(** The lines of a batch that are not blank. *)
Definition signatureLines (lines : list str) : list str :=
  filter (fun l => negb (isEmpty (trim l))) lines.


(** A fragment begins with a blank or a line feed. *)
Definition indented (s : str) : Prop :=
  exists c rest, s = c :: rest /\ (c = 32%N \/ c = 10%N).

(** A logged line is an error line. *)
Definition errorLine (line : str) : Prop :=
  startsWith (lit "ERROR: ") line = true
  \/ startsWith (lit ">>> ERROR: ") line = true.

Definition blocksIndented (b : blocks) : Prop :=
  Forall indented (cppDeclaration b) /\ Forall indented (napiInitBlock b)
  /\ Forall indented (bodyBlock b) /\ Forall indented (tsBlock b).

(** A signature whose types all have their rules. *)
Definition wellWritten (sig : MethodSignature) : Prop :=
  In (returnType sig) SUPPORTED_RETURN_TYPES
  /\ ~ In (returnType sig)
       [lit "GLclampf"; lit "Qt::ContextMenuPolicy"; lit "Qt::WindowFlags"]
  /\ identifier (methodName sig)
  /\ Forall (fun a => In (type a) SUPPORTED_ARG_TYPES
                      /\ type a <> lit "QPoint" /\ identifier (name a))
       (args sig).

(** ** The driver of the earlier versions

    The [process] of the two earlier versions that read a [// CLASS:]
    header.  They differ in one [log] call, the [// CLASS:] line before
    the sections ([banner]); their [expandMethod] is a parameter. *)

Module Older.

Section Driver.

Variable expandMethod : str -> str -> res value.
Variable banner : bool.

Record blocks : Type :=
  { cppDeclaration : list (option str);
    napiInitBlock : list str;
    bodyBlock : list str;
    tsBlock : list str }.

Definition noBlocks : blocks :=
  {| cppDeclaration := []; napiInitBlock := []; bodyBlock := [];
     tsBlock := [] |}.

(** [join('')] of an array that may hold [null]: [null] gives no text. *)
Definition joinNullable (xs : list (option str)) : str :=
  join [] (map (fun x => match x with Some s => s | None => [] end) xs).

Inductive loopExit : Type :=
| Completed (b : blocks)
| Aborted (logged : str)
| Threw (v : value).

(** [switch (result.type)]; [methodDeclaration] is pushed without a
    test. *)
Definition handleResult (result : value) (b : blocks) : loopExit :=
  match result with
  | VOk methodDeclaration napiInit methodBody tsBody =>
      Completed
        {| cppDeclaration := cppDeclaration b ++ [methodDeclaration];
           napiInitBlock := pushNonNull (napiInitBlock b) napiInit;
           bodyBlock := pushNonNull (bodyBlock b) methodBody;
           tsBlock := pushNonNull (tsBlock b) tsBody |}
  | VFailed message => Aborted (lit ">>> ERROR: " ++ toString message)
  | _ => Completed b
  end.

Fixpoint bodyLoop (className : str) (rest : list str) (b : blocks)
  : loopExit :=
  match rest with
  | [] => Completed b
  | line :: rest' =>
      let trimLine := trim line in
      if isEmpty trimLine then bodyLoop className rest' b
      else
        match expandMethod className trimLine with
        | Throw e => Threw e
        | OK result =>
            match handleResult result b with
            | Completed b' => bodyLoop className rest' b'
            | exit => exit
            end
        end
  end.

Definition emit (className : str) (b : blocks) : list str :=
  (if banner then [lit "// CLASS: " ++ className] else [])
  ++ [rule; lit "// C++ declaration"; joinNullable (cppDeclaration b); [];
      rule; lit "// Napi declaration"; join [] (napiInitBlock b); [];
      rule; lit "// C++ body"; join [] (bodyBlock b); [];
      rule; lit "// TS body"; join [] (tsBlock b)].

Definition processLines (lines : list str) : outcome :=
  match skipBlankLines lines 0 with
  | Throw e => Uncaught [] e
  | OK lineNumber =>
      if Nat.eqb lineNumber (List.length lines) then
        Returned [lit "ERROR: No non-blank lines were found."]
      else
        match search classNameRegex (nth lineNumber lines []) with
        | None =>
            Returned [lit "ERROR: Unable to find CLASS comment. i.e. // CLASS: FooBarWidget"]
        | Some found =>
            let className := group "className" found in
            match bodyLoop className (skipn (S lineNumber) lines) noBlocks
            with
            | Aborted logged => Returned [logged]
            | Threw e => Uncaught [] e
            | Completed b => Returned (emit className b)
            end
        end
  end.

Definition process (inputString : str) : outcome :=
  processLines (split 10%N inputString).

End Driver.

End Older.

(** ** Facts about the string primitives *)

Arguments lit : simpl never.

Section StringFacts.

Lemma eqb_eq (a b : str) : JS.eqb a b = true <-> a = b.
Proof.
  revert b; induction a as [|x a IH]; intros [|y b]; simpl; split;
    try congruence; try reflexivity.
  - intros H. apply andb_true_iff in H as [Hx Hr].
    apply N.eqb_eq in Hx. apply IH in Hr. congruence.
  - intros H. injection H as -> ->.
    apply andb_true_iff. split; [apply N.eqb_refl | now apply IH].
Qed.

Lemma includes_In (xs : list str) (x : str) :
  includes xs x = true <-> In x xs.
Proof.
  unfold includes. rewrite existsb_exists. split.
  - intros [y [Hy He]]. apply eqb_eq in He. now subst.
  - intros H. exists x. split; [assumption | now apply eqb_eq].
Qed.

Lemma isEmpty_nil (s : str) : isEmpty s = true <-> s = [].
Proof. destruct s; simpl; split; congruence. Qed.

Lemma isEmpty_false (s : str) : isEmpty s = false <-> s <> [].
Proof. destruct s; simpl; split; congruence. Qed.

Lemma dropWhile_keeps (p : char -> bool) (c : char) (s : str) :
  In c s -> p c = false -> In c (dropWhile p s).
Proof.
  induction s as [|x s IH]; simpl; [tauto|].
  intros [->|Hin] Hp.
  - rewrite Hp. now left.
  - destruct (p x); [now apply IH | now right].
Qed.

(** A line with a character that is not white space is not blank. *)
Lemma trim_not_blank (c : char) (s : str) :
  In c s -> isWhiteSpace c = false -> trim s <> [].
Proof.
  intros Hin Hc Hnil. unfold trim in Hnil.
  assert (H : In c (rev (dropWhile isWhiteSpace
                           (rev (dropWhile isWhiteSpace s))))).
  { apply in_rev. rewrite rev_involutive.
    apply dropWhile_keeps; [|assumption].
    apply in_rev. rewrite rev_involutive.
    now apply dropWhile_keeps. }
  rewrite Hnil in H. destruct H.
Qed.

End StringFacts.

Section Contains.

Lemma contains_here (a post : str) : contains a (a ++ post).
Proof. exists [], post. reflexivity. Qed.

Lemma contains_here2 (a b post : str) : contains (a ++ b) (a ++ b ++ post).
Proof. exists [], post. simpl. now rewrite <- app_assoc. Qed.

Lemma contains_here3 (a b c post : str) :
  contains (a ++ b ++ c) (a ++ b ++ c ++ post).
Proof. exists [], post. simpl. now rewrite <- !app_assoc. Qed.

Lemma contains_skip (needle p hay : str) :
  contains needle hay -> contains needle (p ++ hay).
Proof.
  intros [pre [post ->]]. exists (p ++ pre), post. now rewrite <- app_assoc.
Qed.

End Contains.

Ltac find_occurrence :=
  repeat first
    [ apply contains_here3 | apply contains_here2 | apply contains_here
    | apply contains_skip ].

(** ** Facts about the header and the first loop *)

Section Header.

Lemma search_cons (r : regex) (c : char) (s : str) :
  search r (c :: s) =
    match matchAt r (c :: s) [] (fun _ caps => Some caps) with
    | Some caps => Some caps
    | None => search r s
    end.
Proof. reflexivity. Qed.

(** Both header patterns begin with two slashes. *)
Lemma search_slash (rs : list regex) (s : str) (found : captures) :
  search (seq (RLit (lit "//") :: rs)) s = Some found -> In 47%N s.
Proof.
  induction s as [|c s IH]; intros H.
  - discriminate H.
  - destruct (N.eqb 47 c) eqn:Hc.
    + apply N.eqb_eq in Hc. left. now subst.
    + right. apply IH.
      assert (Hm : forall A (k : str -> captures -> option A),
                 matchAt (seq (RLit (lit "//") :: rs)) (c :: s) [] k = None).
      { intros A k. change (lit "//") with (47 :: lit "/")%N.
        cbn [seq fold_right matchAt stripPrefix]. rewrite Hc. reflexivity. }
      rewrite search_cons, Hm in H. exact H.
Qed.

Lemma matchHeader_not_blank (line : str) (found : captures) (isProp : bool) :
  matchHeader line = Some (found, isProp) -> ~ blank line.
Proof.
  unfold matchHeader, blank. intros H.
  apply trim_not_blank with (c := 47%N); [|reflexivity].
  destruct (search classNameRegex line) as [f|] eqn:Hc.
  - now apply search_slash in Hc.
  - destruct (search propNameRegex line) as [f|] eqn:Hp; [|discriminate].
    now apply search_slash in Hp.
Qed.

Lemma skipBlankLines_all_blank (lines : list str) (n : nat) :
  Forall blank lines -> skipBlankLines lines n = Throw (undefinedRead "trim").
Proof.
  intros H. revert n. induction H as [|l ls Hl _ IH]; intros n; simpl.
  - reflexivity.
  - rewrite Hl. simpl. apply IH.
Qed.

Lemma skipBlankLines_stops (blanks : list str) (line : str)
      (rest : list str) (n : nat) :
  Forall blank blanks -> ~ blank line ->
  skipBlankLines (blanks ++ line :: rest) n = OK (n + List.length blanks).
Proof.
  intros H Hl. revert n. induction H as [|l ls Hb _ IH]; intros n; simpl.
  - apply isEmpty_false in Hl. rewrite Hl. f_equal. lia.
  - rewrite Hb. simpl. rewrite IH. f_equal. lia.
Qed.

(** After the header is found, [process] is the second loop and the
    output of its exit. *)
Lemma processLines_header (blanks : list str) (header : str)
      (body : list str) (found : captures) (isProp : bool) :
  Forall blank blanks ->
  matchHeader header = Some (found, isProp) ->
  processLines (blanks ++ header :: body) =
    match bodyLoop isProp (group "className" found) body noBlocks with
    | Aborted logged => Returned [logged]
    | Completed b => Returned (emit (group "className" found) b)
    end.
Proof.
  intros Hb Hh. unfold processLines.
  rewrite (skipBlankLines_stops blanks header body 0 Hb
             (matchHeader_not_blank header found isProp Hh)).
  simpl Nat.add.
  replace (Nat.eqb (List.length blanks)
             (List.length (blanks ++ header :: body))) with false.
  2:{ symmetry. apply Nat.eqb_neq. rewrite length_app. simpl. lia. }
  rewrite app_nth2 by lia. rewrite Nat.sub_diag. simpl nth. rewrite Hh.
  replace (skipn (S (List.length blanks)) (blanks ++ header :: body))
    with body.
  2:{ change (header :: body) with ([header] ++ body).
      rewrite app_assoc.
      replace (S (List.length blanks)) with (List.length (blanks ++ [header]))
        by (rewrite length_app; simpl; lia).
      now rewrite skipn_app, skipn_all, Nat.sub_diag. }
  reflexivity.
Qed.

End Header.

(** ** Facts about the second loop *)

Section BodyLoop.

Lemma checkArgTypes_throws (signature : str) (args : list CppArgument)
      (v : value) :
  checkArgTypes signature args = Throw v -> exists m, v = failed m.
Proof.
  induction args as [|a args IH]; simpl; [discriminate|].
  destruct (negb (isSupportedArgType (type a))).
  - intros H. injection H as <-. eexists. reflexivity.
  - exact IH.
Qed.

(** What [parseMethodSignature] throws is always its tagged failure. *)
Lemma parseMethodSignature_throws (signature : str) (v : value) :
  parseMethodSignature signature = Throw v -> exists m, v = failed m.
Proof.
  unfold parseMethodSignature.
  destruct (search sigRegex signature) as [found|].
  - destruct (negb (isSupportedReturnType (group "returnType" found))).
    + intros H. injection H as <-. eexists. reflexivity.
    + destruct (checkArgTypes signature (parseArgs (group "args" found)))
        as [u|w] eqn:Hc; simpl; [discriminate|].
      intros H. injection H as <-.
      now apply checkArgTypes_throws in Hc.
  - intros H. injection H as <-. eexists. reflexivity.
Qed.

Lemma parseMethodSignature_blank :
  parseMethodSignature [] =
    Throw (failed (lit "Signature didn't match regex for '" ++ []
                   ++ lit "'.")).
Proof. reflexivity. Qed.

Lemma expandMethod_parse_failure (className signature : str) (v : value) :
  parseMethodSignature signature = Throw v ->
  expandMethod className signature = VFailed v.
Proof. intros H. unfold expandMethod. rewrite H. reflexivity. Qed.

Lemma expandProperty_parse_failure (signature : str) (v : value) :
  parseMethodSignature signature = Throw v ->
  expandProperty signature = v.
Proof. intros H. unfold expandProperty. rewrite H. reflexivity. Qed.

Lemma typeOf_ok (v : value) :
  typeOf v = Some (lit "ok") -> exists d n b t, v = VOk d n b t.
Proof.
  destruct v; simpl; intros H; try discriminate H.
  now eexists _, _, _, _.
Qed.

Lemma bodyLoop_aborts (isProp : bool) (className : str)
      (valid : list str) (invalid : str) (more : list str)
      (message : value) (b : blocks) :
  Forall (accepted isProp className) valid ->
  ~ blank invalid ->
  expandLine isProp className (trim invalid) = VFailed message ->
  bodyLoop isProp className (valid ++ invalid :: more) b =
    Aborted (lit ">>> ERROR: " ++ toString message).
Proof.
  intros Hv Hn He. revert b.
  induction Hv as [|l ls Hl _ IH]; intros b; simpl.
  - apply isEmpty_false in Hn. rewrite Hn, He. reflexivity.
  - destruct Hl as [Hl|Hl].
    + unfold blank in Hl. rewrite Hl. simpl. apply IH.
    + destruct (isEmpty (trim l)); [apply IH|].
      apply typeOf_ok in Hl as [d [n [bd [t ->]]]]. simpl. apply IH.
Qed.

End BodyLoop.

(** ** The claims *)

(** C1 (fail-fast abort).  When the lines of the input are blank lines, a
    header, lines that the second loop accepts (blank, or expanding to an
    [ok] result) and then a non-blank line that [parseMethodSignature]
    rejects, [process] returns after logging one line, the [>>> ERROR:]
    line of the rejected line, whatever lines follow; nothing generated
    for the accepted lines is logged.  In property mode the logged text
    is the message of the rejection; in operation mode [expandMethod]
    has wrapped the rejection and the text is that of an object. *)
Theorem C1_fail_fast_abort
  (inputString : str) (blanks : list str) (header : str) (found : captures)
  (isProp : bool) (valid : list str) (invalid : str) (more : list str)
  (message : str) :
  split 10%N inputString = blanks ++ header :: valid ++ invalid :: more ->
  Forall blank blanks ->
  matchHeader header = Some (found, isProp) ->
  Forall (accepted isProp (group "className" found)) valid ->
  ~ blank invalid ->
  parseMethodSignature (trim invalid) = Throw (failed message) ->
  process inputString =
    Returned [lit ">>> ERROR: "
              ++ (if isProp then message else lit "[object Object]")].
Proof.
  intros Hs Hb Hh Hv Hn Hp. unfold process. rewrite Hs.
  rewrite (processLines_header blanks header _ found isProp Hb Hh).
  assert (He : expandLine isProp (group "className" found) (trim invalid) =
               VFailed (if isProp then VString message else failed message)).
  { unfold expandLine. destruct isProp.
    - now rewrite (expandProperty_parse_failure _ _ Hp).
    - now rewrite (expandMethod_parse_failure _ _ _ Hp). }
  rewrite (bodyLoop_aborts isProp _ valid invalid more _ noBlocks Hv Hn He).
  destruct isProp; reflexivity.
Qed.

Lemma C1_fail_fast_abort_witness :
  process (lit "// CLASS: Foo" ++ nl
           ++ lit "// TODO: int add(int a, int b)" ++ nl
           ++ lit "// TODO: Frobnicator zap()" ++ nl
           ++ lit "// TODO: int sub(int a, int b)" ++ nl) =
    Returned [lit ">>> ERROR: [object Object]"].
Proof.
  apply (C1_fail_fast_abort _ [] (lit "// CLASS: Foo")
           [("className", lit "Foo")] false
           [lit "// TODO: int add(int a, int b)"]
           (lit "// TODO: Frobnicator zap()")
           [lit "// TODO: int sub(int a, int b)"; []]
           (lit "Return type 'Frobnicator' is unknown for signature '// TODO: Frobnicator zap()'.")).
  - vm_compute. reflexivity.
  - constructor.
  - vm_compute. reflexivity.
  - apply Forall_cons; [right; vm_compute; reflexivity | apply Forall_nil].
  - unfold blank. vm_compute. discriminate.
  - vm_compute. reflexivity.
Defined.

(** C2 (unsupported type).  In operation mode the diagnostic for a line
    with an unknown type does not name the type or the line: whatever
    [parseMethodSignature] throws, [expandMethod] stores the thrown object
    as the message of a new failure, and [process] logs the text of an
    object.  [expandProperty] returns the thrown failure itself, so in
    property mode the one logged line names the type and the line. *)
Theorem C2_unsupported_type_diagnostic :
  process (lit "// CLASS: Foo" ++ nl ++ lit "// TODO: Frobnicator zap()") =
    Returned [lit ">>> ERROR: [object Object]"]
  /\ process (lit "// PROP: Foo" ++ nl ++ lit "// TODO: Frobnicator zap()") =
       Returned [lit ">>> ERROR: Return type 'Frobnicator' is unknown for signature '// TODO: Frobnicator zap()'."]
  /\ process (lit "// CLASS: Foo" ++ nl ++ lit "// TODO: void zap(Frobnicator f)") =
       Returned [lit ">>> ERROR: [object Object]"]
  /\ (forall className signature : str,
        match parseMethodSignature signature with
        | Throw v =>
            expandMethod className signature = VFailed v
            /\ toString v = lit "[object Object]"
        | OK _ => True
        end).
Proof.
  split; [vm_compute; reflexivity|].
  split; [vm_compute; reflexivity|].
  split; [vm_compute; reflexivity|].
  intros className signature.
  destruct (parseMethodSignature signature) as [sig|v] eqn:Hp; [exact I|].
  split.
  - now apply expandMethod_parse_failure.
  - apply parseMethodSignature_throws in Hp as [m ->]. reflexivity.
Qed.

(** C7 (blank input).  When every line of the input is blank, the first
    loop of [process] runs past the last line and reads [trim] of
    [undefined]: a [TypeError] escapes [process] and nothing is logged;
    the [No non-blank lines were found] diagnostic is not reached. *)
Theorem C7_blank_input_throws (inputString : str) :
  Forall blank (split 10%N inputString) ->
  process inputString = Uncaught [] (undefinedRead "trim").
Proof.
  intros H. unfold process, processLines.
  now rewrite (skipBlankLines_all_blank _ 0 H).
Qed.

Lemma C7_blank_input_throws_witness :
  process [] = Uncaught [] (undefinedRead "trim")
  /\ process (lit "  " ++ nl ++ nl) = Uncaught [] (undefinedRead "trim").
Proof.
  split.
  - apply (C7_blank_input_throws []). repeat constructor.
  - apply (C7_blank_input_throws (lit "  " ++ nl ++ nl)).
    vm_compute. repeat constructor.
Defined.

(** ** Facts about the native body *)

Section NativeBody.

Lemma OK_inj {A : Type} (a b : A) : OK a = OK b -> a = b.
Proof. congruence. Qed.

Lemma Throw_inj {A : Type} (v w : value) : @Throw A v = Throw w -> v = w.
Proof. congruence. Qed.

Ltac case_chain :=
  lazymatch goal with
  | |- (if ?c then _ else _) = _ -> _ => destruct c; [|case_chain]
  | _ => idtac
  end.

(** Every extraction statement declares the argument by its name and
    reads the call argument of its position. *)
Lemma argExtraction_mentions (i : nat) (arg : CppArgument) (stmt : str) :
  argExtraction i arg = OK stmt ->
  contains (name arg ++ lit " = ") stmt /\ contains (info i) stmt.
Proof.
  unfold argExtraction. case_chain;
    (intros H; first [discriminate H | apply OK_inj in H; subst stmt]);
    unfold readPrimitive, enumCast, unwrapObject;
    (split; find_occurrence).
Qed.

Lemma extractArgs_shape (args : list CppArgument) :
  forall (i : nat) (methodBody result : str),
    extractArgs i args methodBody = OK result ->
    exists stmts,
      result = methodBody ++ List.concat (map (fun s => s ++ nl) stmts)
      /\ List.length stmts = List.length args
      /\ forall k arg, nth_error args k = Some arg ->
           exists stmt, nth_error stmts k = Some stmt
                        /\ argExtraction (i + k) arg = OK stmt.
Proof.
  induction args as [|a args IH]; intros i methodBody result H.
  - injection H as <-. exists []. simpl. rewrite app_nil_r.
    repeat split. intros [|k] arg Hk; discriminate Hk.
  - simpl in H. destruct (argExtraction i a) as [stmt|v] eqn:Ha;
      [|discriminate H].
    simpl in H. apply IH in H as [stmts [-> [Hlen Hnth]]].
    exists (stmt :: stmts). split; [|split].
    + simpl. now rewrite <- !app_assoc.
    + simpl. now rewrite Hlen.
    + intros [|k] arg Hk; simpl in Hk.
      * injection Hk as <-. exists stmt. rewrite Nat.add_0_r. now split.
      * destruct (Hnth k arg Hk) as [s [Hs He]]. exists s.
        rewrite Nat.add_succ_r. now split.
Qed.

(** The text of a native method body. *)
Lemma formatCppMethodBody_shape
      (className methodName : str) (args : list CppArgument)
      (returnType body : str) :
  formatCppMethodBody className methodName args returnType = OK body ->
  exists stmts packing,
    body =
      nl ++ lit "Napi::Value " ++ className ++ lit "Wrap::" ++ methodName
      ++ lit "(const Napi::CallbackInfo& info) {" ++ nl
      ++ lit "  Napi::Env env = info.Env();" ++ nl
      ++ List.concat (map (fun s => s ++ nl) stmts)
      ++ resultDeclaration returnType
      ++ lit "this->instance->" ++ methodName ++ lit "("
      ++ join (lit ", ") (map callArgument args) ++ lit ");" ++ nl
      ++ packing ++ nl ++ lit "}" ++ nl
    /\ List.length stmts = List.length args
    /\ forall k arg, nth_error args k = Some arg ->
         exists stmt, nth_error stmts k = Some stmt
                      /\ argExtraction k arg = OK stmt.
Proof.
  unfold formatCppMethodBody. intros H.
  destruct (extractArgs 0 args _) as [mb|v] eqn:He; [|discriminate H].
  unfold bind in H.
  destruct (resultPacking returnType) as [packing|v] eqn:Hp;
    [|discriminate H].
  apply OK_inj in H. subst body.
  apply extractArgs_shape in He as [stmts [-> [Hlen Hnth]]].
  exists stmts, packing. split; [|split; assumption].
  rewrite <- !app_assoc. reflexivity.
Qed.

(** What an [ok] result of [expandMethod] is made of. *)
Lemma expandMethod_ok (className signature : str)
      (d n b t : option str) :
  expandMethod className signature = VOk d n b t ->
  exists sig body ts,
    parseMethodSignature signature = OK sig
    /\ formatCppMethodBody className (methodName sig) (args sig)
         (returnType sig) = OK body
    /\ formatTSMethod (methodName sig) (args sig) (returnType sig) = OK ts
    /\ d = Some (lit "  Napi::Value " ++ methodName sig
                 ++ lit "(const Napi::CallbackInfo& info);" ++ nl)
    /\ n = Some (lit "       InstanceMethod(" ++ dq ++ methodName sig ++ dq
                 ++ lit ", &" ++ className ++ lit "Wrap::" ++ methodName sig
                 ++ lit ")," ++ nl)
    /\ b = Some body /\ t = Some ts.
Proof.
  unfold expandMethod. intros H.
  destruct (parseMethodSignature signature) as [sig|v]; [|discriminate H].
  simpl in H.
  destruct (formatCppMethodBody _ _ _ _) as [body|v] eqn:Hb;
    [|discriminate H].
  simpl in H.
  destruct (formatTSMethod _ _ _) as [ts|v] eqn:Ht; [|discriminate H].
  simpl in H. injection H as <- <- <- <-.
  exists sig, body, ts. repeat split; assumption.
Qed.

End NativeBody.

(** C3 (dereference).  In every [ok] result of [expandMethod] the native
    body contains the invocation [this->instance->m(a1, ..., ak);] whose
    arguments are, position by position, those of the parsed signature:
    [*name] when the type of the argument is in [DEREFERENCE_TYPES] and
    [name] otherwise. *)
Theorem C3_dereference_in_invocation
  (className signature : str) (d n : option str) (body : str)
  (t : option str) :
  expandMethod className signature = VOk d n (Some body) t ->
  exists sig invocation pre post,
    parseMethodSignature signature = OK sig
    /\ body = pre ++ lit "this->instance->" ++ methodName sig ++ lit "("
              ++ join (lit ", ") invocation ++ lit ");" ++ nl ++ post
    /\ List.length invocation = List.length (args sig)
    /\ forall i arg, nth_error (args sig) i = Some arg ->
         (In (type arg) DEREFERENCE_TYPES ->
          nth_error invocation i = Some (lit "*" ++ name arg))
         /\ (~ In (type arg) DEREFERENCE_TYPES ->
             nth_error invocation i = Some (name arg)).
Proof.
  intros H.
  apply expandMethod_ok in H
    as [sig [body' [ts [Hp [Hb [_ [_ [_ [Heq _]]]]]]]]].
  injection Heq as <-.
  apply formatCppMethodBody_shape in Hb as [stmts [packing [-> _]]].
  exists sig, (map callArgument (args sig)).
  eexists (nl ++ lit "Napi::Value " ++ className ++ lit "Wrap::"
           ++ methodName sig ++ lit "(const Napi::CallbackInfo& info) {"
           ++ nl ++ lit "  Napi::Env env = info.Env();" ++ nl
           ++ List.concat (map (fun s => s ++ nl) stmts)
           ++ resultDeclaration (returnType sig)).
  exists (packing ++ nl ++ lit "}" ++ nl).
  split; [assumption|]. split; [now rewrite <- !app_assoc|].
  split; [apply length_map|].
  intros i arg Hi. rewrite nth_error_map, Hi. cbn [option_map].
  unfold callArgument.
  destruct (includes DEREFERENCE_TYPES (type arg)) eqn:Hd.
  - split; [reflexivity|]. intros Hn. apply includes_In in Hd. tauto.
  - split; [|reflexivity]. intros Hin. apply includes_In in Hin. congruence.
Qed.

Lemma C3_dereference_in_invocation_witness :
  exists sig invocation pre post,
    parseMethodSignature
      (lit "// TODO: void moveTo(const QPoint &p, int z)") = OK sig
    /\ nl ++ lit "Napi::Value FooWrap::moveTo(const Napi::CallbackInfo& info) {"
       ++ nl ++ lit "  Napi::Env env = info.Env();" ++ nl
       ++ lit "  QPointWrap* pWrap = Napi::ObjectWrap<QPointWrap>::Unwrap(info[0].As<Napi::Object>());"
       ++ nl ++ lit "  QPoint* p = pWrap->getInternalInstance();" ++ nl
       ++ lit "  int z = info[1].As<Napi::Number>().Int32Value();" ++ nl
       ++ lit "  this->instance->moveTo(*p, z);" ++ nl
       ++ lit "  return env.Null();" ++ nl ++ lit "}" ++ nl
       = pre ++ lit "this->instance->" ++ methodName sig ++ lit "("
         ++ join (lit ", ") invocation ++ lit ");" ++ nl ++ post
    /\ List.length invocation = List.length (args sig)
    /\ forall i arg, nth_error (args sig) i = Some arg ->
         (In (type arg) DEREFERENCE_TYPES ->
          nth_error invocation i = Some (lit "*" ++ name arg))
         /\ (~ In (type arg) DEREFERENCE_TYPES ->
             nth_error invocation i = Some (name arg)).
Proof.
  eapply (C3_dereference_in_invocation (lit "Foo")
            (lit "// TODO: void moveTo(const QPoint &p, int z)")).
  vm_compute. reflexivity.
Defined.

(** C4 (the three native fragments agree).  In every [ok] result of
    [expandMethod] the declaration, the registration entry and the native
    body are built on the one method name of the parsed signature; the
    body holds one extraction statement per parsed argument, in order, the
    statement at position [i] declaring the name of argument [i] from
    [info[i]], and then calls the method with one argument per parsed
    argument, in order, the one at position [i] being the name of
    argument [i], dereferenced or not. *)
Theorem C4_native_fragments_agree
  (className signature : str) (d n b t : option str) :
  expandMethod className signature = VOk d n b t ->
  exists sig stmts passed post,
    parseMethodSignature signature = OK sig
    /\ d = Some (lit "  Napi::Value " ++ methodName sig
                 ++ lit "(const Napi::CallbackInfo& info);" ++ nl)
    /\ n = Some (lit "       InstanceMethod(" ++ dq ++ methodName sig ++ dq
                 ++ lit ", &" ++ className ++ lit "Wrap::" ++ methodName sig
                 ++ lit ")," ++ nl)
    /\ b = Some (nl ++ lit "Napi::Value " ++ className ++ lit "Wrap::"
                 ++ methodName sig
                 ++ lit "(const Napi::CallbackInfo& info) {" ++ nl
                 ++ lit "  Napi::Env env = info.Env();" ++ nl
                 ++ List.concat (map (fun s => s ++ nl) stmts)
                 ++ resultDeclaration (returnType sig)
                 ++ lit "this->instance->" ++ methodName sig ++ lit "("
                 ++ join (lit ", ") passed ++ lit ");" ++ nl ++ post)
    /\ List.length stmts = List.length (args sig)
    /\ List.length passed = List.length (args sig)
    /\ forall i arg, nth_error (args sig) i = Some arg ->
         (exists stmt, nth_error stmts i = Some stmt
                       /\ contains (name arg ++ lit " = ") stmt
                       /\ contains (info i) stmt)
         /\ (nth_error passed i = Some (name arg)
             \/ nth_error passed i = Some (lit "*" ++ name arg)).
Proof.
  intros H.
  apply expandMethod_ok in H
    as [sig [body [ts [Hp [Hb [_ [Hd [Hn [Heq _]]]]]]]]].
  apply formatCppMethodBody_shape in Hb as [stmts [packing [-> [Hlen Hnth]]]].
  exists sig, stmts, (map callArgument (args sig)),
    (packing ++ nl ++ lit "}" ++ nl).
  repeat (split; [assumption|]).
  split; [apply length_map|].
  intros i arg Hi. split.
  - destruct (Hnth i arg Hi) as [stmt [Hs He]].
    exists stmt. split; [assumption|]. now apply argExtraction_mentions.
  - rewrite nth_error_map, Hi. cbn [option_map]. unfold callArgument.
    destruct (includes DEREFERENCE_TYPES (type arg)); [now right | now left].
Qed.

Lemma C4_native_fragments_agree_witness :
  exists sig stmts passed post,
    parseMethodSignature (lit "// TODO: int add(int a, int b)") = OK sig
    /\ Some (lit "  Napi::Value add(const Napi::CallbackInfo& info);" ++ nl)
       = Some (lit "  Napi::Value " ++ methodName sig
               ++ lit "(const Napi::CallbackInfo& info);" ++ nl)
    /\ Some (lit "       InstanceMethod(" ++ dq ++ lit "add" ++ dq
             ++ lit ", &FooWrap::add)," ++ nl)
       = Some (lit "       InstanceMethod(" ++ dq ++ methodName sig ++ dq
               ++ lit ", &" ++ lit "Foo" ++ lit "Wrap::" ++ methodName sig
               ++ lit ")," ++ nl)
    /\ Some (nl ++ lit "Napi::Value FooWrap::add(const Napi::CallbackInfo& info) {"
             ++ nl ++ lit "  Napi::Env env = info.Env();" ++ nl
             ++ lit "  int a = info[0].As<Napi::Number>().Int32Value();" ++ nl
             ++ lit "  int b = info[1].As<Napi::Number>().Int32Value();" ++ nl
             ++ lit "  int result = this->instance->add(a, b);" ++ nl
             ++ lit "  return Napi::Number::New(env, result);" ++ nl
             ++ lit "}" ++ nl)
       = Some (nl ++ lit "Napi::Value " ++ lit "Foo" ++ lit "Wrap::"
               ++ methodName sig
               ++ lit "(const Napi::CallbackInfo& info) {" ++ nl
               ++ lit "  Napi::Env env = info.Env();" ++ nl
               ++ List.concat (map (fun s => s ++ nl) stmts)
               ++ resultDeclaration (returnType sig)
               ++ lit "this->instance->" ++ methodName sig ++ lit "("
               ++ join (lit ", ") passed ++ lit ");" ++ nl ++ post)
    /\ List.length stmts = List.length (args sig)
    /\ List.length passed = List.length (args sig)
    /\ forall i arg, nth_error (args sig) i = Some arg ->
         (exists stmt, nth_error stmts i = Some stmt
                       /\ contains (name arg ++ lit " = ") stmt
                       /\ contains (info i) stmt)
         /\ (nth_error passed i = Some (name arg)
             \/ nth_error passed i = Some (lit "*" ++ name arg)).
Proof.
  eapply (C4_native_fragments_agree (lit "Foo")
            (lit "// TODO: int add(int a, int b)")).
  vm_compute. reflexivity.
Defined.

(** ** Facts about the argument types *)

Section ArgumentTypes.

Ltac same_case :=
  lazymatch goal with
  | |- (if ?c then _ else _) = _ -> _ =>
      destruct c; [intros _; eexists; reflexivity | same_case]
  | _ => intros H; discriminate H
  end.

(** Which case of either [switch] is taken depends on the type only. *)
Lemma argExtraction_by_type (t : str) (i i' : nat) (n n' stmt : str) :
  argExtraction i {| type := t; name := n |} = OK stmt ->
  exists stmt', argExtraction i' {| type := t; name := n' |} = OK stmt'.
Proof. unfold argExtraction. cbn [type name]. same_case. Qed.

Lemma mapCppToTSArgumentType_by_type (t n n' ts : str) :
  mapCppToTSArgumentType t n = OK ts ->
  exists ts', mapCppToTSArgumentType t n' = OK ts'.
Proof. unfold mapCppToTSArgumentType. same_case. Qed.

Lemma hasRules_sound (t : str) :
  hasRules t = true ->
  forall (i : nat) (n : str),
    (exists stmt, argExtraction i {| type := t; name := n |} = OK stmt)
    /\ (exists ts, mapCppToTSArgumentType t n = OK ts).
Proof.
  unfold hasRules. intros H i n.
  destruct (argExtraction 0 {| type := t; name := [] |}) as [s|v] eqn:Ha;
    [|discriminate H].
  destruct (mapCppToTSArgumentType t []) as [ts|v] eqn:Hm;
    [|discriminate H].
  split.
  - exact (argExtraction_by_type t 0 i [] n s Ha).
  - exact (mapCppToTSArgumentType_by_type t [] n ts Hm).
Qed.

Lemma typesWithRules_have_rules :
  Forall (fun t =>
            forall (i : nat) (n : str),
              (exists stmt,
                  argExtraction i {| type := t; name := n |} = OK stmt)
              /\ (exists ts, mapCppToTSArgumentType t n = OK ts))
         typesWithRules.
Proof.
  apply Forall_forall. intros t Hin. apply hasRules_sound.
  assert (Hall : forallb hasRules typesWithRules = true)
    by (vm_compute; reflexivity).
  rewrite forallb_forall in Hall. now apply Hall.
Qed.

End ArgumentTypes.

(** C9 (every supported argument type has its rules).  [QPoint] is in
    [SUPPORTED_ARG_TYPES] and has a case neither in the argument loop of
    [formatCppMethodBody] nor in [mapCppToTSArgumentType]: both reach
    their throwing default.  Each of the 37 other supported types has
    both rules. *)
Theorem C9_QPoint_reaches_the_defaults :
  isSupportedArgType (lit "QPoint") = true
  /\ (forall (i : nat) (n : str),
        argExtraction i {| type := lit "QPoint"; name := n |} =
          Throw (VError (lit "formatCppMethodBody(): Unexpected arg type 'QPoint' while processing C++ body.")))
  /\ (forall n : str,
        mapCppToTSArgumentType (lit "QPoint") n =
          Throw (VError (lit "mapCppToTSArgumentType(): Unexpected argument type 'QPoint' specificed for argument '"
                         ++ n ++ lit "' while processing TypeScript.")))
  /\ Forall (fun t =>
               forall (i : nat) (n : str),
                 (exists stmt,
                     argExtraction i {| type := t; name := n |} = OK stmt)
                 /\ (exists ts, mapCppToTSArgumentType t n = OK ts))
            typesWithRules
  /\ List.length SUPPORTED_ARG_TYPES = 38
  /\ List.length typesWithRules = 37
  /\ parseMethodSignature (lit "// TODO: void move(QPoint p)") =
       OK {| args := [{| type := lit "QPoint"; name := lit "p" |}];
             methodName := lit "move"; returnType := lit "void" |}
  /\ process (lit "// CLASS: Foo" ++ nl ++ lit "// TODO: void move(QPoint p)") =
       Returned [lit ">>> ERROR: Error: formatCppMethodBody(): Unexpected arg type 'QPoint' while processing C++ body."].
Proof.
  split; [reflexivity|].
  split; [intros i n; vm_compute; reflexivity|].
  split; [intros n; vm_compute; reflexivity|].
  split; [exact typesWithRules_have_rules|].
  repeat split; vm_compute; reflexivity.
Qed.

(** ** Facts about the typed surface *)

Section TypedSurface.

Lemma charAt3Lower_key (methodName : str) :
  4 <= List.length methodName ->
  exists c, charAt3Lower methodName = OK c
            /\ c ++ slice 4 methodName = propertyKey methodName.
Proof.
  destruct methodName as [|c0 [|c1 [|c2 [|c3 remaining]]]]; simpl;
    try lia.
  intros _. eexists. split; reflexivity.
Qed.

Lemma charAt3Lower_short (methodName : str) :
  List.length methodName < 4 ->
  charAt3Lower methodName = Throw (undefinedRead "toLowerCase").
Proof.
  destruct methodName as [|c0 [|c1 [|c2 [|c3 remaining]]]]; simpl;
    try lia; reflexivity.
Qed.

Ltac throw_chain :=
  lazymatch goal with
  | |- (if ?c then _ else _) = _ -> _ =>
      destruct c; [intros H; discriminate H | throw_chain]
  | _ => intros H; apply Throw_inj in H; subst; reflexivity
  end.

Lemma mapCppToTSArgumentType_throws (argType argName : str) (v : value) :
  mapCppToTSArgumentType argType argName = Throw v -> typeOf v = None.
Proof. unfold mapCppToTSArgumentType. throw_chain. Qed.

Lemma mapCppToTsReturnType_throws (returnType : str) (v : value) :
  mapCppToTsReturnType returnType = Throw v -> typeOf v = None.
Proof. unfold mapCppToTsReturnType. throw_chain. Qed.

Lemma tsParameters_throws (args : list CppArgument) (v : value) :
  tsParameters args = Throw v -> typeOf v = None.
Proof.
  induction args as [|a args IH]; simpl; [discriminate|].
  destruct (mapCppToTSArgumentType (type a) (name a)) as [t|w] eqn:Ht;
    unfold bind.
  - destruct (tsParameters args) as [ps|w]; [discriminate|].
    intros H. apply IH. exact H.
  - intros H. apply Throw_inj in H. subst w.
    now apply mapCppToTSArgumentType_throws in Ht.
Qed.

Lemma tsHead_throws (methodName : str) (args : list CppArgument)
      (returnType : str) (v : value) :
  tsHead methodName args returnType = Throw v -> typeOf v = None.
Proof.
  unfold tsHead.
  destruct (tsParameters args) as [ps|w] eqn:Hp; unfold bind.
  - destruct (mapCppToTsReturnType returnType) as [r|w] eqn:Hr;
      [discriminate|].
    intros H. apply Throw_inj in H. subst w.
    now apply mapCppToTsReturnType_throws in Hr.
  - intros H. apply Throw_inj in H. subst w.
    now apply tsParameters_throws in Hp.
Qed.

Lemma propertyBody_throws (methodName : str) (args : list CppArgument)
      (returnType : str) (v : value) :
  propertyBody methodName args returnType = Throw v -> typeOf v = None.
Proof.
  unfold propertyBody.
  destruct (isCase returnType ["void"]).
  - unfold charAt3Lower.
    destruct (nth_error methodName 3); unfold bind; [discriminate|].
    intros H. apply Throw_inj in H. subst v. reflexivity.
  - repeat (match goal with
            | |- (if ?c then _ else _) = _ -> _ => destruct c
            end; [discriminate|]).
    discriminate.
Qed.

(** What [formatTSProperty] throws is an [Error] instance: it has no
    [type]. *)
Lemma formatTSProperty_throws (methodName : str) (args : list CppArgument)
      (returnType : str) (v : value) :
  formatTSProperty methodName args returnType = Throw v -> typeOf v = None.
Proof.
  unfold formatTSProperty.
  destruct (tsHead methodName args returnType) as [h|w] eqn:Hh; unfold bind.
  - destruct (propertyBody methodName args returnType) as [bd|w] eqn:Hb;
      [discriminate|].
    intros H. apply Throw_inj in H. subst w.
    now apply propertyBody_throws in Hb.
  - intros H. apply Throw_inj in H. subst w.
    now apply tsHead_throws in Hh.
Qed.

(** The example of a raw throw: a setter whose name has fewer than four
    characters. *)
Lemma formatTSProperty_short_setter (methodName : str)
      (args : list CppArgument) (ps : list str) :
  List.length methodName < 4 ->
  tsParameters args = OK ps ->
  formatTSProperty methodName args (lit "void") =
    Throw (undefinedRead "toLowerCase").
Proof.
  intros Hlen Hps. unfold formatTSProperty, tsHead, propertyBody.
  rewrite Hps. change (isCase (lit "void") ["void"]) with true.
  change (mapCppToTsReturnType (lit "void")) with (OK (A := str) (lit "void")).
  rewrite (charAt3Lower_short methodName Hlen). reflexivity.
Qed.

Lemma mapCppToTsReturnType_void :
  mapCppToTsReturnType (lit "void") = OK (lit "void").
Proof. reflexivity. Qed.

End TypedSurface.

(** C5 (property setter).  In property mode a signature with return type
    [void], a method name of at least four characters and arguments with
    typed-surface types expands to an accessor whose body is the
    [setProperty] call keyed by the method name without its first three
    characters and with the next character in lower case, passing the
    argument names.  The input [// PROP: Foo], [// TODO: void
    setEnabled(bool enabled)] gives the call keyed [enabled]. *)
Theorem C5_property_setter_key
  (signature : str) (sig : MethodSignature) (ps : list str) :
  parseMethodSignature signature = OK sig ->
  returnType sig = lit "void" ->
  4 <= List.length (methodName sig) ->
  tsParameters (args sig) = OK ps ->
  expandProperty signature =
    VOk None None None
      (Some (lit "    " ++ formatTSMethodName (methodName sig) ++ lit "("
             ++ join (lit ", ") ps ++ lit "): void {" ++ nl
             ++ lit "this.setProperty('" ++ propertyKey (methodName sig)
             ++ lit "', " ++ join (lit ", ") (map name (args sig))
             ++ lit ");" ++ nl
             ++ lit "    }" ++ nl))
  /\ process (lit "// PROP: Foo" ++ nl
              ++ lit "// TODO: void setEnabled(bool enabled)" ++ nl) =
       Returned [lit "// CLASS: Foo"; rule; lit "// TS body";
                 lit "    setEnabled(enabled: boolean): void {" ++ nl
                 ++ lit "this.setProperty('enabled', enabled);" ++ nl
                 ++ lit "    }" ++ nl].
Proof.
  intros Hp Hr Hlen Hps. split; [|vm_compute; reflexivity].
  unfold expandProperty. rewrite Hp. unfold bind at 1.
  unfold formatTSProperty, tsHead, propertyBody.
  rewrite Hps, Hr, mapCppToTsReturnType_void.
  change (isCase (lit "void") ["void"]) with true.
  destruct (charAt3Lower_key (methodName sig) Hlen) as [c [-> <-]].
  unfold bind. cbv iota zeta. rewrite <- !app_assoc. reflexivity.
Qed.

Lemma C5_property_setter_key_witness :
  expandProperty (lit "// TODO: void setEnabled(bool enabled)") =
    VOk None None None
      (Some (lit "    setEnabled(enabled: boolean): void {" ++ nl
             ++ lit "this.setProperty('enabled', enabled);" ++ nl
             ++ lit "    }" ++ nl)).
Proof.
  apply (C5_property_setter_key
           (lit "// TODO: void setEnabled(bool enabled)")
           {| args := [{| type := lit "bool"; name := lit "enabled" |}];
              methodName := lit "setEnabled"; returnType := lit "void" |}
           [lit "enabled: boolean"]).
  - vm_compute. reflexivity.
  - reflexivity.
  - vm_compute. lia.
  - vm_compute. reflexivity.
Defined.

(** ** Facts about property mode *)

Section PropertyMode.

Lemma parseMethodSignature_ok_not_blank (signature : str)
      (sig : MethodSignature) :
  parseMethodSignature signature = OK sig -> signature <> [].
Proof. intros H ->. rewrite parseMethodSignature_blank in H. discriminate H. Qed.

(** An [ok] result of [expandProperty] carries a typed accessor only. *)
Lemma expandProperty_ok (signature : str) (d n b t : option str) :
  expandProperty signature = VOk d n b t ->
  d = None /\ n = None /\ b = None.
Proof.
  unfold expandProperty.
  destruct (parseMethodSignature signature) as [sig|v] eqn:Hp; unfold bind.
  - destruct (formatTSProperty _ _ _) as [ts|v] eqn:Hf.
    + intros H. injection H as <- <- <- _. now repeat split.
    + intros ->. apply formatTSProperty_throws in Hf. discriminate Hf.
  - intros ->. apply parseMethodSignature_throws in Hp as [m Hm].
    discriminate Hm.
Qed.

(** In property mode the second loop leaves the three native arrays as
    they are. *)
Lemma bodyLoop_property_native (className : str) (lines : list str) :
  forall b b' : blocks,
    bodyLoop true className lines b = Completed b' ->
    cppDeclaration b' = cppDeclaration b
    /\ napiInitBlock b' = napiInitBlock b
    /\ bodyBlock b' = bodyBlock b.
Proof.
  induction lines as [|l lines IH]; intros b b' H; simpl in H.
  - injection H as <-. now repeat split.
  - destruct (isEmpty (trim l)); [now apply IH|].
    unfold expandLine in H.
    destruct (expandProperty (trim l)) as [s|m|d n bd t|m|m] eqn:He;
      simpl in H; try discriminate H; try (now apply IH).
    apply expandProperty_ok in He as [-> [-> ->]].
    apply IH in H. simpl in H. exact H.
Qed.

End PropertyMode.

(** C10 (a raw throw in property mode).  When the signature of a line
    parses and [formatTSProperty] throws, the thrown value is an [Error]
    instance without [type]; [expandProperty] returns it as it is, and
    the second loop goes on with the next line, the four arrays
    unchanged and nothing logged for the line. *)
Theorem C10_raw_throw_is_skipped
  (className line : str) (rest : list str) (b : blocks)
  (sig : MethodSignature) (e : value) :
  parseMethodSignature (trim line) = OK sig ->
  formatTSProperty (methodName sig) (args sig) (returnType sig) = Throw e ->
  typeOf e = None
  /\ expandProperty (trim line) = e
  /\ bodyLoop true className (line :: rest) b =
       bodyLoop true className rest b.
Proof.
  intros Hp Hf.
  assert (Ht : typeOf e = None) by now apply formatTSProperty_throws in Hf.
  assert (He : expandProperty (trim line) = e).
  { unfold expandProperty. rewrite Hp. unfold bind at 1. now rewrite Hf. }
  repeat split; try assumption.
  simpl. apply parseMethodSignature_ok_not_blank in Hp.
  apply isEmpty_false in Hp. rewrite Hp.
  unfold expandLine. rewrite He.
  destruct e; simpl in Ht; try discriminate Ht; reflexivity.
Qed.

Lemma C10_raw_throw_is_skipped_witness :
  typeOf (undefinedRead "toLowerCase") = None
  /\ expandProperty (trim (lit "  // TODO: void f()")) =
       undefinedRead "toLowerCase"
  /\ bodyLoop true (lit "Foo")
       [lit "  // TODO: void f()"; lit "// TODO: bool isEnabled()"] noBlocks =
     bodyLoop true (lit "Foo") [lit "// TODO: bool isEnabled()"] noBlocks.
Proof.
  apply (C10_raw_throw_is_skipped (lit "Foo") (lit "  // TODO: void f()")
           [lit "// TODO: bool isEnabled()"] noBlocks
           {| args := []; methodName := lit "f"; returnType := lit "void" |}).
  - vm_compute. reflexivity.
  - apply (formatTSProperty_short_setter (lit "f") [] []);
      [vm_compute; lia | reflexivity].
Defined.

(** ** Facts about the emitted sections *)

Section Sections.

Lemma section_guarded (title : string) (fragments : list str) :
  guarded title fragments (section title fragments).
Proof.
  unfold guarded, section. destruct fragments as [|f fs]; simpl.
  - now left.
  - right. split; [discriminate | reflexivity].
Qed.

End Sections.

(** C6, as the code has it.  When the second loop completes, [process]
    logs the [// CLASS:] line, then each of the three native sections
    exactly when its array is not empty, and then the typed-API section
    in every case, also when no fragment was collected.  In property mode
    the three native sections are absent. *)
Theorem C6_sections_emitted
  (inputString : str) (blanks : list str) (header : str) (found : captures)
  (isProp : bool) (body : list str) (b : blocks) :
  split 10%N inputString = blanks ++ header :: body ->
  Forall blank blanks ->
  matchHeader header = Some (found, isProp) ->
  bodyLoop isProp (group "className" found) body noBlocks = Completed b ->
  exists declaration registration native,
    process inputString =
      Returned ([lit "// CLASS: " ++ group "className" found]
                ++ declaration ++ registration ++ native
                ++ [rule; lit "// TS body"; join [] (tsBlock b)])
    /\ guarded "// C++ declaration" (cppDeclaration b) declaration
    /\ guarded "// Napi declaration" (napiInitBlock b) registration
    /\ guarded "// C++ body" (bodyBlock b) native
    /\ (isProp = true ->
        declaration = [] /\ registration = [] /\ native = []).
Proof.
  intros Hs Hb Hh Hl. unfold process. rewrite Hs.
  rewrite (processLines_header blanks header body found isProp Hb Hh), Hl.
  exists (section "// C++ declaration" (cppDeclaration b)),
    (section "// Napi declaration" (napiInitBlock b)),
    (section "// C++ body" (bodyBlock b)).
  split; [reflexivity|].
  repeat (split; [apply section_guarded|]).
  intros ->. apply bodyLoop_property_native in Hl as [-> [-> ->]].
  now repeat split.
Qed.

Lemma C6_sections_emitted_witness :
  exists declaration registration native,
    process (lit "// PROP: Foo" ++ nl
             ++ lit "// TODO: void setEnabled(bool enabled)" ++ nl) =
      Returned ([lit "// CLASS: " ++ lit "Foo"]
                ++ declaration ++ registration ++ native
                ++ [rule; lit "// TS body";
                    join []
                      [lit "    setEnabled(enabled: boolean): void {" ++ nl
                       ++ lit "this.setProperty('enabled', enabled);" ++ nl
                       ++ lit "    }" ++ nl]])
    /\ guarded "// C++ declaration" [] declaration
    /\ guarded "// Napi declaration" [] registration
    /\ guarded "// C++ body" [] native
    /\ (true = true ->
        declaration = [] /\ registration = [] /\ native = []).
Proof.
  apply (C6_sections_emitted
           (lit "// PROP: Foo" ++ nl
            ++ lit "// TODO: void setEnabled(bool enabled)" ++ nl)
           [] (lit "// PROP: Foo") [("className", lit "Foo")] true
           [lit "// TODO: void setEnabled(bool enabled)"; []]
           {| cppDeclaration := []; napiInitBlock := []; bodyBlock := [];
              tsBlock :=
                [lit "    setEnabled(enabled: boolean): void {" ++ nl
                 ++ lit "this.setProperty('enabled', enabled);" ++ nl
                 ++ lit "    }" ++ nl] |}).
  - vm_compute. reflexivity.
  - constructor.
  - vm_compute. reflexivity.
  - vm_compute. reflexivity.
Defined.

(** C6, as the claim has it, fails for the typed-API section: for a
    header without signature lines the loop completes with an empty
    [tsBlock] and the typed-API section is logged all the same. *)
Lemma C6_typed_section_unguarded :
  exists (b : blocks) (logged : list str),
    bodyLoop false (lit "Foo") [] noBlocks = Completed b
    /\ tsBlock b = []
    /\ process (lit "// CLASS: Foo") = Returned logged
    /\ logged = [lit "// CLASS: Foo"; rule; lit "// TS body"; []]
    /\ In (lit "// TS body") logged.
Proof.
  exists noBlocks, [lit "// CLASS: Foo"; rule; lit "// TS body"; []].
  repeat split; try (vm_compute; reflexivity).
  right. right. left. reflexivity.
Qed.

(** ** Facts about parseArgs *)

Section ParseArgs.

Lemma split_no_separator (sep : char) (s : str) :
  Forall (fun piece => ~ In sep piece) (split sep s).
Proof.
  induction s as [|c s IH]; simpl.
  - constructor; [tauto | constructor].
  - destruct (N.eqb c sep) eqn:Hc.
    + constructor; [tauto | assumption].
    + destruct (split sep s) as [|h t]; inversion IH; subst.
      * repeat constructor. simpl. apply N.eqb_neq in Hc. intuition.
      * constructor; [|assumption].
        simpl. apply N.eqb_neq in Hc. intuition.
Qed.

Lemma last_Forall {A : Type} (P : A -> Prop) (xs : list A) (d : A) :
  Forall P xs -> P d -> P (last xs d).
Proof.
  induction 1 as [|x xs Hx Hxs IH]; intros Hd; simpl; [assumption|].
  destruct xs; [assumption | now apply IH].
Qed.

Lemma parseArg_names (part : str) (result : list CppArgument) :
  Forall (fun a => properName (name a)) result ->
  Forall (fun a => properName (name a)) (parseArg part result).
Proof.
  intros H. unfold parseArg.
  set (argParts := split 32%N (trim part)).
  assert (Hlast : ~ In 32%N (last argParts [])).
  { apply (last_Forall (fun p => ~ In 32%N p)); [|tauto].
    apply split_no_separator. }
  set (n := if startsWith (lit "&") (last argParts [])
               || startsWith (lit "*") (last argParts [])
            then substr 1 (last argParts []) else last argParts []).
  assert (Hn : ~ In 32%N n).
  { unfold n. destruct (_ || _); [|assumption].
    intros Hin. apply Hlast.
    unfold substr in Hin. rewrite <- (firstn_skipn 1).
    apply in_or_app. now right. }
  destruct (isEmpty n) eqn:He; [assumption|].
  apply Forall_app. split; [assumption|].
  constructor; [|constructor]. simpl. split; [|assumption].
  now apply isEmpty_false.
Qed.

Lemma parseArgs_names (args : str) :
  Forall (fun a => properName (name a)) (parseArgs args).
Proof.
  unfold parseArgs.
  assert (H : forall parts result,
             Forall (fun a => properName (name a)) result ->
             Forall (fun a => properName (name a))
               (fold_left (fun result part => parseArg part result)
                  parts result)).
  { induction parts as [|p parts IH]; intros result Hr; simpl;
      [assumption|].
    apply IH. now apply parseArg_names. }
  apply H. constructor.
Qed.

Lemma checkArgTypes_ok (signature : str) (args : list CppArgument)
      (u : unit) :
  checkArgTypes signature args = OK u ->
  Forall (fun a => isSupportedArgType (type a) = true) args.
Proof.
  induction args as [|a args IH]; simpl; [constructor|].
  destruct (isSupportedArgType (type a)) eqn:Ha; simpl; [|discriminate].
  intros H. constructor; [assumption | now apply IH].
Qed.

End ParseArgs.

(** C8, as the code has it.  Every argument of a parsed signature has a
    name that is not empty and holds no blank, and a type of
    [SUPPORTED_ARG_TYPES]; the parser does not compare the names. *)
Theorem C8_parsed_argument_names
  (signature : str) (sig : MethodSignature) :
  parseMethodSignature signature = OK sig ->
  Forall (fun a =>
            name a <> [] /\ ~ In 32%N (name a)
            /\ In (type a) SUPPORTED_ARG_TYPES)
         (args sig).
Proof.
  unfold parseMethodSignature.
  destruct (search sigRegex signature) as [found|]; [|discriminate].
  destruct (negb (isSupportedReturnType _)); [discriminate|].
  destruct (checkArgTypes signature (parseArgs (group "args" found)))
    as [u|v] eqn:Hc; unfold bind; [|discriminate].
  intros H. apply OK_inj in H. subst sig. cbn [args].
  apply checkArgTypes_ok in Hc.
  pose proof (parseArgs_names (group "args" found)) as Hn.
  rewrite Forall_forall in *. intros a Ha.
  destruct (Hn a Ha) as [Hne Hsp].
  repeat split; try assumption.
  apply includes_In. now apply Hc.
Qed.

Lemma C8_parsed_argument_names_witness :
  Forall (fun a =>
            name a <> [] /\ ~ In 32%N (name a)
            /\ In (type a) SUPPORTED_ARG_TYPES)
         [{| type := lit "int"; name := lit "a" |};
          {| type := lit "int"; name := lit "a" |}].
Proof.
  apply (C8_parsed_argument_names (lit "// TODO: int add(int a, int a)")
           {| args := [{| type := lit "int"; name := lit "a" |};
                       {| type := lit "int"; name := lit "a" |}];
              methodName := lit "add"; returnType := lit "int" |}).
  vm_compute. reflexivity.
Defined.

(** C8, as the claim has it, fails: the parser accepts a signature whose
    two arguments carry the same name. *)
Lemma C8_repeated_name_accepted :
  exists sig,
    parseMethodSignature (lit "// TODO: int add(int a, int a)") = OK sig
    /\ map name (args sig) = [lit "a"; lit "a"]
    /\ ~ NoDup (map name (args sig)).
Proof.
  exists {| args := [{| type := lit "int"; name := lit "a" |};
                     {| type := lit "int"; name := lit "a" |}];
            methodName := lit "add"; returnType := lit "int" |}.
  split; [vm_compute; reflexivity|]. split; [reflexivity|].
  cbn [map args name]. intros H. inversion H as [|x xs Hnot _]; subst.
  apply Hnot. now left.
Qed.


(** ** Facts about the patterns *)

Section Patterns.

Lemma stripPrefix_Some (l s s' : str) :
  stripPrefix l s = Some s' -> s = l ++ s'.
Proof.
  revert s. induction l as [|x l IH]; intros [|y s]; simpl;
    try congruence.
  destruct (N.eqb x y) eqn:Hxy; [|discriminate].
  apply N.eqb_eq in Hxy. subst y. intros H. f_equal. now apply IH.
Qed.

Lemma stripPrefix_app (l s : str) : stripPrefix l (l ++ s) = Some s.
Proof.
  induction l as [|x l IH]; simpl; [now destruct s|].
  now rewrite N.eqb_refl.
Qed.

Lemma star_sound {A : Type} (p : char -> bool) (k : str -> option A)
      (s : str) (x : A) :
  star p s k = Some x ->
  exists w s', s = w ++ s' /\ Forall (fun c => p c = true) w
               /\ k s' = Some x.
Proof.
  induction s as [|c s IH]; simpl.
  - intros H. now exists [], [].
  - destruct (p c) eqn:Hc.
    + destruct (star p s k) as [r|] eqn:Hs.
      * intros H. injection H as ->.
        destruct (IH eq_refl) as [w [s' [-> [Hw Hk]]]].
        exists (c :: w), s'. repeat split; [constructor|]; assumption.
      * intros H. now exists [], (c :: s).
    + intros H. now exists [], (c :: s).
Qed.

(** The matcher finds only what the pattern matches. *)
Lemma matchAt_sound {A : Type} (r : regex) :
  forall (s : str) (caps : captures) (k : str -> captures -> option A)
         (x : A),
    matchAt r s caps k = Some x ->
    exists w s' caps',
      s = w ++ s' /\ matches r w caps caps' /\ k s' caps' = Some x.
Proof.
  induction r as [l|p|p|p|r IH|r1 IH1 r2 IH2|n r IH];
    intros s caps k x H; simpl in H.
  - destruct (stripPrefix l s) as [s'|] eqn:Hl; [|discriminate].
    apply stripPrefix_Some in Hl. exists l, s', caps.
    repeat split; [assumption | constructor | assumption].
  - destruct s as [|c s]; [discriminate|].
    destruct (p c) eqn:Hc; [|discriminate].
    exists [c], s, caps. repeat split; [now constructor | assumption].
  - apply star_sound in H as [w [s' [-> [Hw Hk]]]].
    exists w, s', caps. repeat split; [now constructor | assumption].
  - destruct s as [|c s]; [discriminate|].
    destruct (p c) eqn:Hc; [|discriminate].
    apply star_sound in H as [w [s' [-> [Hw Hk]]]].
    exists (c :: w), s', caps. repeat split; [|assumption].
    constructor; [discriminate | now constructor].
  - destruct (matchAt r s caps k) as [y|] eqn:Hr.
    + injection H as ->. apply IH in Hr as [w [s' [caps' [-> [Hm Hk]]]]].
      exists w, s', caps'. repeat split; [now constructor | assumption].
    + exists [], s, caps. repeat split; [apply MOptNone | assumption].
  - apply IH1 in H as [w1 [s1 [c1 [-> [Hm1 H]]]]].
    apply IH2 in H as [w2 [s2 [c2 [-> [Hm2 H]]]]].
    exists (w1 ++ w2), s2, c2. rewrite <- app_assoc.
    repeat split; [econstructor; eassumption | assumption].
  - apply IH in H as [w [s' [c1 [-> [Hm H]]]]].
    rewrite length_app, Nat.add_sub, firstn_app, Nat.sub_diag,
      firstn_all, app_nil_r in H.
    exists w, s', ((n, w) :: c1).
    repeat split; [now constructor | assumption].
Qed.

Lemma search_sound (r : regex) (s : str) (found : captures) :
  search r s = Some found ->
  exists pre w post, s = pre ++ w ++ post /\ matches r w [] found.
Proof.
  induction s as [|c s IH].
  - simpl. destruct (matchAt r [] [] _) as [caps|] eqn:Hm; [|discriminate].
    intros H. injection H as ->.
    apply matchAt_sound in Hm as [w [s' [caps' [Hs [Hm Hk]]]]].
    injection Hk as ->. now exists [], w, s'.
  - rewrite search_cons.
    destruct (matchAt r (c :: s) [] _) as [caps|] eqn:Hm.
    + intros H. injection H as ->.
      apply matchAt_sound in Hm as [w [s' [caps' [Hs [Hm Hk]]]]].
      injection Hk as ->. now exists [], w, s'.
    + intros H. apply IH in H as [pre [w [post [-> Hm']]]].
      now exists (c :: pre), w, post.
Qed.

Lemma matches_lit (l w : str) (c c' : captures) :
  matches (RLit l) w c c' -> w = l /\ c' = c.
Proof. inversion 1; subst; now split. Qed.

Lemma matches_class (p : char -> bool) (w : str) (c c' : captures) :
  matches (RClass p) w c c' -> (exists x, w = [x] /\ p x = true) /\ c' = c.
Proof. inversion 1; subst; split; eauto. Qed.

Lemma matches_star (p : char -> bool) (w : str) (c c' : captures) :
  matches (RStar p) w c c' -> Forall (fun x => p x = true) w /\ c' = c.
Proof. inversion 1; subst; now split. Qed.

Lemma matches_plus (p : char -> bool) (w : str) (c c' : captures) :
  matches (RPlus p) w c c' ->
  w <> [] /\ Forall (fun x => p x = true) w /\ c' = c.
Proof. inversion 1; subst; now repeat split. Qed.

Lemma matches_seq (r1 r2 : regex) (w : str) (c0 c2 : captures) :
  matches (RSeq r1 r2) w c0 c2 ->
  exists w1 w2 c1,
    w = w1 ++ w2 /\ matches r1 w1 c0 c1 /\ matches r2 w2 c1 c2.
Proof.
  inversion 1; subst. eexists _, _, _.
  split; [reflexivity|]. split; eassumption.
Qed.

Lemma matches_group (n : string) (r : regex) (w : str)
      (c0 c2 : captures) :
  matches (RGroup n r) w c0 c2 ->
  exists c1, c2 = (n, w) :: c1 /\ matches r w c0 c1.
Proof.
  inversion 1; subst. eexists. split; [reflexivity | eassumption].
Qed.

Lemma matches_opt (r : regex) (w : str) (c c' : captures) :
  matches (ROpt r) w c c' -> matches r w c c' \/ (w = [] /\ c' = c).
Proof. inversion 1; subst; [now left | now right]. Qed.

End Patterns.

(** ** More facts about the string primitives *)

Section SplitJoinTrim.

Lemma split_not_nil (sep : char) (s : str) :
  exists h t, split sep s = h :: t.
Proof.
  induction s as [|c s [h [t IH]]]; simpl; [now eexists _, _|].
  destruct (N.eqb c sep); [now eexists _, _|].
  rewrite IH. now eexists _, _.
Qed.

Lemma split_app_sep (sep : char) (a b : str) :
  split sep (a ++ sep :: b) = split sep a ++ split sep b.
Proof.
  induction a as [|c a IH]; simpl.
  - now rewrite N.eqb_refl.
  - destruct (N.eqb c sep); rewrite IH; [reflexivity|].
    destruct (split_not_nil sep a) as [h [t ->]]. reflexivity.
Qed.

Lemma split_none (sep : char) (s : str) :
  ~ In sep s -> split sep s = [s].
Proof.
  induction s as [|c s IH]; simpl; [reflexivity|].
  intros H. destruct (N.eqb c sep) eqn:Hc.
  - apply N.eqb_eq in Hc. tauto.
  - rewrite IH by tauto. reflexivity.
Qed.

Lemma join_cons_char (sep : str) (c : char) (h : str) (t : list str) :
  join sep ((c :: h) :: t) = c :: join sep (h :: t).
Proof. destruct t; reflexivity. Qed.

(** Joining the pieces of a split with the separator gives the text
    back. *)
Lemma join_split (sep : char) (s : str) : join [sep] (split sep s) = s.
Proof.
  induction s as [|c s IH]; simpl; [reflexivity|].
  destruct (N.eqb c sep) eqn:Hc.
  - apply N.eqb_eq in Hc. subst c.
    destruct (split_not_nil sep s) as [h [t Hs]]. rewrite Hs in *.
    change (join [sep] ([] :: h :: t)) with (sep :: join [sep] (h :: t)).
    now rewrite IH.
  - destruct (split_not_nil sep s) as [h [t Hs]]. rewrite Hs in *.
    rewrite join_cons_char. now rewrite IH.
Qed.

Lemma dropWhile_head (p : char -> bool) (c : char) (s : str) :
  p c = false -> dropWhile p (c :: s) = c :: s.
Proof. intros H. simpl. now rewrite H. Qed.

Lemma dropWhile_app_fixed (p : char -> bool) (s t : str) :
  s <> [] -> dropWhile p s = s -> dropWhile p (s ++ t) = s ++ t.
Proof.
  destruct s as [|c s]; [congruence|]. intros _. simpl.
  destruct (p c) eqn:Hc; [|reflexivity].
  intros H. exfalso.
  assert (Hlen : List.length (dropWhile p s) <= List.length s).
  { clear. induction s as [|x s IH]; simpl; [lia|].
    destruct (p x); simpl; lia. }
  rewrite H in Hlen. simpl in Hlen. lia.
Qed.

(** A text that neither begins nor ends with white space is its own
    trim. *)
Lemma trim_fixed (s : str) :
  dropWhile isWhiteSpace s = s ->
  dropWhile isWhiteSpace (rev s) = rev s ->
  trim s = s.
Proof.
  intros H1 H2. unfold trim. now rewrite H1, H2, rev_involutive.
Qed.

Lemma trim_leading (c : char) (s : str) :
  isWhiteSpace c = true -> trim (c :: s) = trim s.
Proof. intros H. unfold trim. simpl. now rewrite H. Qed.

Lemma dropWhile_idempotent (p : char -> bool) (s : str) :
  dropWhile p (dropWhile p s) = dropWhile p s.
Proof.
  induction s as [|c s IH]; simpl; [reflexivity|].
  destruct (p c) eqn:Hc; [assumption|]. simpl. now rewrite Hc.
Qed.

End SplitJoinTrim.

(** ** Facts about identifiers and written arguments *)

Section WrittenArguments.

Lemma isWord_range (c : char) :
  isWord c = true -> (48 <= c <= 122)%N.
Proof.
  unfold isWord, isUpper, isLower, isDigit, inRange.
  rewrite !orb_true_iff, !andb_true_iff, !N.leb_le, N.eqb_eq. lia.
Qed.

Lemma range_not_whiteSpace (c : char) :
  (48 <= c <= 122)%N -> isWhiteSpace c = false.
Proof.
  intros Hc. destruct (isWhiteSpace c) eqn:H; [|reflexivity]. exfalso.
  unfold isWhiteSpace in H. cbn [existsb] in H.
  rewrite !orb_true_iff, andb_true_iff, !N.eqb_eq, !N.leb_le in H.
  intuition (discriminate || lia).
Qed.

Lemma isWord_not_whiteSpace (c : char) :
  isWord c = true -> isWhiteSpace c = false.
Proof. intros H. now apply range_not_whiteSpace, isWord_range. Qed.

(** An identifier holds none of the characters below 48: blank, comma,
    parentheses, ampersand, asterisk. *)
Lemma identifier_without (n : str) (c : char) :
  identifier n -> (c < 48)%N -> ~ In c n.
Proof.
  intros [_ Hn] Hc Hin. rewrite Forall_forall in Hn.
  apply Hn, isWord_range in Hin. lia.
Qed.

Lemma identifier_head (n : str) :
  identifier n -> exists c n', n = c :: n' /\ isWord c = true.
Proof.
  intros [Hne Hn]. destruct n as [|c n']; [congruence|].
  exists c, n'. split; [reflexivity|]. now inversion Hn.
Qed.

Lemma identifier_dropWhile (n : str) :
  identifier n -> dropWhile isWhiteSpace n = n.
Proof.
  intros H. destruct (identifier_head n H) as [c [n' [-> Hc]]].
  now apply dropWhile_head, isWord_not_whiteSpace.
Qed.

Lemma identifier_rev (n : str) : identifier n -> identifier (rev n).
Proof.
  intros [Hne Hn]. split.
  - intros H. apply Hne. now rewrite <- (rev_involutive n), H.
  - now apply Forall_rev.
Qed.

Lemma identifier_startsWith (n : str) (c : char) :
  identifier n -> (c < 48)%N -> startsWith [c] n = false.
Proof.
  intros H Hc. destruct (identifier_head n H) as [x [n' [-> Hx]]]. simpl.
  apply isWord_range in Hx.
  replace (N.eqb c x) with false; [reflexivity|].
  symmetry. apply N.eqb_neq. lia.
Qed.

Lemma trim_render (t n : str) :
  plainType t -> identifier n -> trim (t ++ lit " " ++ n) = t ++ lit " " ++ n.
Proof.
  intros [Ht [Hd _]] Hn. apply trim_fixed.
  - now apply dropWhile_app_fixed.
  - rewrite !rev_app_distr, <- app_assoc.
    apply dropWhile_app_fixed.
    + now destruct (identifier_rev n Hn).
    + now apply identifier_dropWhile, identifier_rev.
Qed.

(** One written argument is read back as it was written. *)
Lemma parseArg_render (piece : str) (a : CppArgument)
      (result : list CppArgument) :
  trim piece = render a ->
  plainType (type a) -> identifier (name a) ->
  parseArg piece result = result ++ [a].
Proof.
  intros Ht Hty Hn. unfold parseArg. rewrite Ht. unfold render.
  change (lit " ") with [32%N].
  change (type a ++ [32%N] ++ name a) with (type a ++ 32%N :: name a).
  rewrite split_app_sep.
  rewrite (split_none 32%N (name a))
    by (apply identifier_without; [assumption | lia]).
  rewrite removelast_last, last_last, join_split.
  change (lit "&") with [38%N]. change (lit "*") with [42%N].
  rewrite !identifier_startsWith by (assumption || lia).
  cbn [orb]. destruct Hn as [Hne _].
  apply isEmpty_false in Hne. rewrite Hne.
  now destruct a.
Qed.

Lemma split_join_commas (rs : list str) :
  forall r : str,
    Forall (fun x => ~ In 44%N x) (r :: rs) ->
    split 44%N (join (lit ", ") (r :: rs)) = r :: map (cons 32%N) rs.
Proof.
  induction rs as [|r2 rs IH]; intros r H.
  - apply split_none. now inversion H.
  - inversion H as [|? ? Hr Hrs]; subst.
    change (join (lit ", ") (r :: r2 :: rs))
      with (r ++ 44%N :: 32%N :: join (lit ", ") (r2 :: rs)).
    rewrite split_app_sep, (split_none 44%N r Hr).
    cbn [app split]. change (N.eqb 32 44) with false. cbv iota.
    now rewrite (IH r2 Hrs).
Qed.

Lemma render_no_comma (a : CppArgument) :
  plainType (type a) -> identifier (name a) -> ~ In 44%N (render a).
Proof.
  intros [_ [_ [Hc _]]] Hn. unfold render. rewrite !in_app_iff.
  intros [H|[H|H]]; [tauto| |].
  - destruct H as [H|[]]. discriminate H.
  - revert H. apply identifier_without; [assumption | lia].
Qed.

Lemma render_no_paren (a : CppArgument) :
  plainType (type a) -> identifier (name a) -> ~ In 41%N (render a).
Proof.
  intros [_ [_ [_ Hc]]] Hn. unfold render. rewrite !in_app_iff.
  intros [H|[H|H]]; [tauto| |].
  - destruct H as [H|[]]. discriminate H.
  - revert H. apply identifier_without; [assumption | lia].
Qed.

End WrittenArguments.

(** Written arguments are read back as they were written. *)
Lemma parseArgs_render (arguments : list CppArgument) :
  Forall (fun a => plainType (type a) /\ identifier (name a)) arguments ->
  parseArgs (join (lit ", ") (map render arguments)) = arguments.
Proof.
  intros H. destruct arguments as [|a rest]; [reflexivity|].
  unfold parseArgs. cbn [map]. rewrite split_join_commas.
  2:{ change (render a :: map render rest) with (map render (a :: rest)).
      apply Forall_map. revert H. apply Forall_impl.
      intros x [Ht Hn]. now apply render_no_comma. }
  inversion H as [|? ? [Hta Hna] Hrest]; subst. cbn [fold_left].
  rewrite (parseArg_render (render a) a [])
    by (try assumption; now apply trim_render).
  clear H Hta Hna. change (a :: rest) with (([] ++ [a]) ++ rest).
  generalize ([] ++ [a]).
  induction Hrest as [|b rest [Htb Hnb] _ IH]; intros acc; cbn [map fold_left].
  - now rewrite app_nil_r.
  - rewrite (parseArg_render (32%N :: render b) b acc);
      try assumption.
    + rewrite IH. now rewrite <- app_assoc.
    + rewrite trim_leading by reflexivity. now apply trim_render.
Qed.

(** X1 (round trip of [parseArgs]).  An argument list written as
    [type name] pieces separated by a comma and a blank, with types that
    are not empty, do not begin with white space and hold no comma or
    closing parenthesis, and names that are identifiers, is parsed to
    exactly these arguments, in order. *)
Theorem X1_parseArgs_round_trip (arguments : list CppArgument) :
  Forall (fun a => plainType (type a) /\ identifier (name a)) arguments ->
  parseArgs (join (lit ", ") (map render arguments)) = arguments.
Proof. exact (parseArgs_render arguments). Qed.

Lemma X1_parseArgs_round_trip_witness :
  parseArgs (lit "const QPoint p, int z") =
    [{| type := lit "const QPoint"; name := lit "p" |};
     {| type := lit "int"; name := lit "z" |}].
Proof.
  apply (X1_parseArgs_round_trip
           [{| type := lit "const QPoint"; name := lit "p" |};
            {| type := lit "int"; name := lit "z" |}]).
  repeat constructor; simpl; try discriminate;
    try (vm_compute; intuition discriminate).
Defined.


(** ** What the signature and header patterns accept *)

Section Grammar.

Lemma matches_opt_lit (l w : str) (c c' : captures) :
  matches (ROpt (RLit l)) w c c' -> (w = [] \/ w = l) /\ c' = c.
Proof.
  intros H. apply matches_opt in H as [H|[-> ->]]; [|now split; [left|]].
  apply matches_lit in H as [-> ->]. now split; [right|].
Qed.

Lemma matches_opt_lit_plus (l : str) (p : char -> bool) (w : str)
      (c c' : captures) :
  matches (ROpt (RSeq (RLit l) (RPlus p))) w c c' ->
  (w = [] \/ exists sp, w = l ++ sp /\ Forall (fun x => p x = true) sp
                        /\ sp <> [])
  /\ c' = c.
Proof.
  intros H. apply matches_opt in H as [H|[-> ->]]; [|now split; [left|]].
  apply matches_seq in H as [w1 [w2 [c1 [-> [H1 H2]]]]].
  apply matches_lit in H1 as [-> ->].
  apply matches_plus in H2 as [Hne [Hall ->]].
  split; [right; now exists w2 | reflexivity].
Qed.

(** The text that [sigRegex] matches and the groups it captures. *)
Lemma sigRegex_matches (w : str) (found : captures) :
  matches sigRegex w [] found ->
  exists sp1 sp2 virt rt sp3 amp ast sp4 m a,
    w = lit "//" ++ sp1 ++ lit "TODO:" ++ sp2 ++ virt ++ rt ++ sp3
        ++ amp ++ ast ++ sp4 ++ m ++ lit "(" ++ a ++ lit ")"
    /\ found = [("args", a); ("methodName", m); ("returnType", rt)]
    /\ (whiteSpace sp1 /\ sp1 <> []) /\ (whiteSpace sp2 /\ sp2 <> [])
    /\ (whiteSpace sp3 /\ sp3 <> []) /\ whiteSpace sp4
    /\ (virt = [] \/ exists sp, virt = lit "virtual" ++ sp
                                /\ whiteSpace sp /\ sp <> [])
    /\ (amp = [] \/ amp = lit "&") /\ (ast = [] \/ ast = lit "*")
    /\ rt <> [] /\ identifier m /\ ~ In 41%N a.
Proof.
  unfold sigRegex. cbn [seq fold_right]. intros H.
  apply matches_seq in H as [w1 [r1 [c1 [-> [H1 H]]]]].
  apply matches_lit in H1 as [-> ->].
  apply matches_seq in H as [sp1 [r2 [c2 [-> [H2 H]]]]].
  apply matches_plus in H2 as [Hsp1 [Wsp1 ->]].
  apply matches_seq in H as [w3 [r3 [c3 [-> [H3 H]]]]].
  apply matches_lit in H3 as [-> ->].
  apply matches_seq in H as [sp2 [r4 [c4 [-> [H4 H]]]]].
  apply matches_plus in H4 as [Hsp2 [Wsp2 ->]].
  apply matches_seq in H as [virt [r5 [c5 [-> [H5 H]]]]].
  apply matches_opt_lit_plus in H5 as [Hvirt ->].
  apply matches_seq in H as [rt [r6 [c6 [-> [H6 H]]]]].
  apply matches_group in H6 as [c6' [-> H6]].
  apply matches_plus in H6 as [Hrt [_ ->]].
  apply matches_seq in H as [sp3 [r7 [c7 [-> [H7 H]]]]].
  apply matches_plus in H7 as [Hsp3 [Wsp3 ->]].
  apply matches_seq in H as [amp [r8 [c8 [-> [H8 H]]]]].
  apply matches_opt_lit in H8 as [Hamp ->].
  apply matches_seq in H as [ast [r9 [c9 [-> [H9 H]]]]].
  apply matches_opt_lit in H9 as [Hast ->].
  apply matches_seq in H as [sp4 [r10 [c10 [-> [H10 H]]]]].
  apply matches_star in H10 as [Wsp4 ->].
  apply matches_seq in H as [m [r11 [c11 [-> [H11 H]]]]].
  apply matches_group in H11 as [c11' [-> H11]].
  apply matches_plus in H11 as [Hm [Wm ->]].
  apply matches_seq in H as [op [r12 [c12 [-> [H12 H]]]]].
  apply matches_class in H12 as [[x [-> Hx]] ->].
  apply N.eqb_eq in Hx. subst x.
  apply matches_seq in H as [a [r13 [c13 [-> [H13 H]]]]].
  apply matches_group in H13 as [c13' [-> H13]].
  apply matches_star in H13 as [Wa ->].
  apply matches_seq in H as [cl [r14 [c14 [-> [H14 H]]]]].
  apply matches_lit in H14 as [-> ->].
  apply matches_lit in H as [-> ->].
  exists sp1, sp2, virt, rt, sp3, amp, ast, sp4, m, a.
  rewrite app_nil_r.
  repeat split; try assumption.
  intros Hin. rewrite Forall_forall in Wa. apply Wa in Hin.
  discriminate Hin.
Qed.

(** The text that a header pattern matches. *)
Lemma headerRegex_matches (keyword w : str) (found : captures) :
  matches (seq [RLit (lit "//"); RPlus ws; RLit keyword; RPlus ws;
                RGroup "className" (RPlus isWord)]) w [] found ->
  exists sp1 sp2 n,
    w = lit "//" ++ sp1 ++ keyword ++ sp2 ++ n
    /\ found = [("className", n)]
    /\ (whiteSpace sp1 /\ sp1 <> []) /\ (whiteSpace sp2 /\ sp2 <> [])
    /\ identifier n.
Proof.
  cbn [seq fold_right]. intros H.
  apply matches_seq in H as [w1 [r1 [c1 [-> [H1 H]]]]].
  apply matches_lit in H1 as [-> ->].
  apply matches_seq in H as [sp1 [r2 [c2 [-> [H2 H]]]]].
  apply matches_plus in H2 as [Hsp1 [Wsp1 ->]].
  apply matches_seq in H as [w3 [r3 [c3 [-> [H3 H]]]]].
  apply matches_lit in H3 as [-> ->].
  apply matches_seq in H as [sp2 [r4 [c4 [-> [H4 H]]]]].
  apply matches_plus in H4 as [Hsp2 [Wsp2 ->]].
  apply matches_seq in H as [n [r5 [c5 [-> [H5 H]]]]].
  apply matches_group in H5 as [c5' [-> H5]].
  apply matches_plus in H5 as [Hn [Wn ->]].
  apply matches_lit in H as [-> ->].
  exists sp1, sp2, n. rewrite app_nil_r.
  repeat split; assumption.
Qed.

End Grammar.

(** X2 (what a parsed line looks like).  Whenever [parseMethodSignature]
    accepts a line, the line holds, somewhere, the marker [//], white
    space, [TODO:], white space, an optional [virtual] with white space,
    the return type, white space, an optional [&], an optional [*],
    optional white space, the method name, and the argument text between
    parentheses; the method name of the result is an identifier, the
    return type is in [SUPPORTED_RETURN_TYPES], the argument text holds
    no closing parenthesis and the arguments are [parseArgs] of it. *)
Theorem X2_parsed_line_grammar (signature : str) (sig : MethodSignature) :
  parseMethodSignature signature = OK sig ->
  exists before sp1 sp2 virt sp3 amp ast sp4 a after,
    signature =
      before ++ lit "//" ++ sp1 ++ lit "TODO:" ++ sp2 ++ virt
      ++ returnType sig ++ sp3 ++ amp ++ ast ++ sp4
      ++ methodName sig ++ lit "(" ++ a ++ lit ")" ++ after
    /\ (whiteSpace sp1 /\ sp1 <> []) /\ (whiteSpace sp2 /\ sp2 <> [])
    /\ (whiteSpace sp3 /\ sp3 <> []) /\ whiteSpace sp4
    /\ (virt = [] \/ exists sp, virt = lit "virtual" ++ sp
                                /\ whiteSpace sp /\ sp <> [])
    /\ (amp = [] \/ amp = lit "&") /\ (ast = [] \/ ast = lit "*")
    /\ identifier (methodName sig)
    /\ In (returnType sig) SUPPORTED_RETURN_TYPES
    /\ ~ In 41%N a
    /\ args sig = parseArgs a.
Proof.
  unfold parseMethodSignature.
  destruct (search sigRegex signature) as [found|] eqn:Hs; [|discriminate].
  apply search_sound in Hs as [before [w [after [-> Hm]]]].
  apply sigRegex_matches in Hm
    as [sp1 [sp2 [virt [rt [sp3 [amp [ast [sp4 [m [a [-> [-> Hrest]]]]]]]]]]]].
  change (group "returnType"
            [("args", a); ("methodName", m); ("returnType", rt)]) with rt.
  change (group "args"
            [("args", a); ("methodName", m); ("returnType", rt)]) with a.
  change (group "methodName"
            [("args", a); ("methodName", m); ("returnType", rt)]) with m.
  destruct (isSupportedReturnType rt) eqn:Hrt; [|discriminate]. cbn [negb].
  destruct (checkArgTypes _ (parseArgs a)) as [u|v]; [|discriminate].
  unfold bind. intros H. apply OK_inj in H. subst sig. cbn [args methodName returnType].
  destruct Hrest as [H1 [H2 [H3 [H4 [H5 [H6 [H7 [_ [H9 H10]]]]]]]]].
  exists before, sp1, sp2, virt, sp3, amp, ast, sp4, a, after.
  rewrite <- !app_assoc.
  repeat (split; [first [reflexivity | assumption]|]).
  split; [now apply includes_In|]. now split.
Qed.

Lemma X2_parsed_line_grammar_witness :
  exists before sp1 sp2 virt sp3 amp ast sp4 a after,
    lit "  // TODO: virtual QRect &rect(const QModelIndex &index) const" =
      before ++ lit "//" ++ sp1 ++ lit "TODO:" ++ sp2 ++ virt
      ++ lit "QRect" ++ sp3 ++ amp ++ ast ++ sp4
      ++ lit "rect" ++ lit "(" ++ a ++ lit ")" ++ after
    /\ (whiteSpace sp1 /\ sp1 <> []) /\ (whiteSpace sp2 /\ sp2 <> [])
    /\ (whiteSpace sp3 /\ sp3 <> []) /\ whiteSpace sp4
    /\ (virt = [] \/ exists sp, virt = lit "virtual" ++ sp
                                /\ whiteSpace sp /\ sp <> [])
    /\ (amp = [] \/ amp = lit "&") /\ (ast = [] \/ ast = lit "*")
    /\ identifier (lit "rect")
    /\ In (lit "QRect") SUPPORTED_RETURN_TYPES
    /\ ~ In 41%N a
    /\ [{| type := lit "const QModelIndex"; name := lit "index" |}]
       = parseArgs a.
Proof.
  apply (X2_parsed_line_grammar
           (lit "  // TODO: virtual QRect &rect(const QModelIndex &index) const")
           {| args := [{| type := lit "const QModelIndex";
                          name := lit "index" |}];
              methodName := lit "rect"; returnType := lit "QRect" |}).
  vm_compute. reflexivity.
Defined.

(** X3 (what a header looks like).  Whenever the header of a batch is
    recognised, the line holds [//], white space, [CLASS:] in operation
    mode or [PROP:] in property mode, white space and the class name,
    and the class name is an identifier. *)
Theorem X3_header_grammar (line : str) (found : captures) (isProp : bool) :
  matchHeader line = Some (found, isProp) ->
  exists before sp1 sp2 after,
    line = before ++ lit "//" ++ sp1
           ++ (if isProp then lit "PROP:" else lit "CLASS:") ++ sp2
           ++ group "className" found ++ after
    /\ (whiteSpace sp1 /\ sp1 <> []) /\ (whiteSpace sp2 /\ sp2 <> [])
    /\ identifier (group "className" found).
Proof.
  unfold matchHeader.
  destruct (search classNameRegex line) as [f|] eqn:Hc.
  - intros H. injection H as <- <-.
    apply search_sound in Hc as [before [w [after [-> Hm]]]].
    apply headerRegex_matches in Hm as [sp1 [sp2 [n [-> [-> Hrest]]]]].
    exists before, sp1, sp2, after. rewrite <- !app_assoc.
    split; [reflexivity | exact Hrest].
  - destruct (search propNameRegex line) as [f|] eqn:Hp; [|discriminate].
    intros H. injection H as <- <-.
    apply search_sound in Hp as [before [w [after [-> Hm]]]].
    apply headerRegex_matches in Hm as [sp1 [sp2 [n [-> [-> Hrest]]]]].
    exists before, sp1, sp2, after. rewrite <- !app_assoc.
    split; [reflexivity | exact Hrest].
Qed.

Lemma X3_header_grammar_witness :
  exists before sp1 sp2 after,
    lit "/* x */ //  PROP:  QWidget_2 and more" =
      before ++ lit "//" ++ sp1 ++ lit "PROP:" ++ sp2
      ++ lit "QWidget_2" ++ after
    /\ (whiteSpace sp1 /\ sp1 <> []) /\ (whiteSpace sp2 /\ sp2 <> [])
    /\ identifier (lit "QWidget_2").
Proof.
  apply (X3_header_grammar (lit "/* x */ //  PROP:  QWidget_2 and more")
           [("className", lit "QWidget_2")] true).
  vm_compute. reflexivity.
Defined.

(** X4 (what a rejection says).  Whatever [parseMethodSignature] throws
    is a tagged failure whose message ends with the rejected line between
    quotes; it says that the pattern did not match, or it names a return
    type that is not in [SUPPORTED_RETURN_TYPES], or it names an
    argument type that is not in [SUPPORTED_ARG_TYPES]. *)
Theorem X4_rejection_message (signature : str) (v : value) :
  parseMethodSignature signature = Throw v ->
  exists reason,
    v = VFailed (VString (reason ++ lit "'" ++ signature ++ lit "'."))
    /\ (reason = lit "Signature didn't match regex for "
        \/ (exists t, ~ In t SUPPORTED_RETURN_TYPES
                      /\ reason = lit "Return type '" ++ t
                                  ++ lit "' is unknown for signature ")
        \/ (exists t, ~ In t SUPPORTED_ARG_TYPES
                      /\ reason = lit "Argument type '" ++ t
                                  ++ lit "' is unknown for signature ")).
Proof.
  unfold parseMethodSignature.
  destruct (search sigRegex signature) as [found|].
  - destruct (isSupportedReturnType (group "returnType" found)) eqn:Hr;
      cbn [negb].
    + destruct (checkArgTypes signature (parseArgs (group "args" found)))
        as [u|w] eqn:Hc; unfold bind; [discriminate|].
      intros H. apply Throw_inj in H. subst w.
      induction (parseArgs (group "args" found)) as [|a l IH];
        simpl in Hc; [discriminate|].
      destruct (isSupportedArgType (type a)) eqn:Ha; cbn [negb] in Hc;
        [now apply IH|].
      apply Throw_inj in Hc. subst v.
      exists (lit "Argument type '" ++ type a
              ++ lit "' is unknown for signature ").
      split; [unfold failed; now rewrite <- !app_assoc|].
      right. right. exists (type a). split; [|reflexivity].
      intros Hin. apply includes_In in Hin.
      unfold isSupportedArgType in Ha. congruence.
    + intros H. apply Throw_inj in H. subst v.
      exists (lit "Return type '" ++ group "returnType" found
              ++ lit "' is unknown for signature ").
      split; [unfold failed; now rewrite <- !app_assoc|].
      right. left. exists (group "returnType" found). split; [|reflexivity].
      intros Hin. apply includes_In in Hin.
      unfold isSupportedReturnType in Hr. congruence.
  - intros H. apply Throw_inj in H. subst v.
    exists (lit "Signature didn't match regex for ").
    split; [reflexivity | now left].
Qed.

Lemma X4_rejection_message_witness :
  exists reason,
    failed (lit "Argument type 'const QString&' is unknown for signature '// TODO: void setText(const QString& text)'.")
    = VFailed (VString (reason ++ lit "'"
                        ++ lit "// TODO: void setText(const QString& text)"
                        ++ lit "'."))
    /\ (reason = lit "Signature didn't match regex for "
        \/ (exists t, ~ In t SUPPORTED_RETURN_TYPES
                      /\ reason = lit "Return type '" ++ t
                                  ++ lit "' is unknown for signature ")
        \/ (exists t, ~ In t SUPPORTED_ARG_TYPES
                      /\ reason = lit "Argument type '" ++ t
                                  ++ lit "' is unknown for signature ")).
Proof.
  apply (X4_rejection_message
           (lit "// TODO: void setText(const QString& text)")).
  vm_compute. reflexivity.
Defined.

(** ** How the matcher runs on a written signature *)

Section GreedyRuns.

Lemma star_greedy {A : Type} (p : char -> bool) (w rest : str)
      (k : str -> option A) (x : A) :
  Forall (fun c => p c = true) w -> stops p rest -> k rest = Some x ->
  star p (w ++ rest) k = Some x.
Proof.
  intros Hw Hr Hk. induction Hw as [|c w Hc _ IH]; simpl.
  - destruct rest as [|c rest]; simpl in *; [assumption | now rewrite Hr].
  - now rewrite Hc, IH.
Qed.

Lemma matchAt_seq {A : Type} (r1 r2 : regex) (s : str) (caps : captures)
      (k : str -> captures -> option A) :
  matchAt (RSeq r1 r2) s caps k =
    matchAt r1 s caps (fun s' caps' => matchAt r2 s' caps' k).
Proof. reflexivity. Qed.

Lemma matchAt_lit {A : Type} (l s : str) (caps : captures)
      (k : str -> captures -> option A) :
  matchAt (RLit l) (l ++ s) caps k = k s caps.
Proof. simpl. now rewrite stripPrefix_app. Qed.

Lemma matchAt_plus {A : Type} (p : char -> bool) (w rest : str)
      (caps : captures) (k : str -> captures -> option A) (x : A) :
  w <> [] -> Forall (fun c => p c = true) w -> stops p rest ->
  k rest caps = Some x ->
  matchAt (RPlus p) (w ++ rest) caps k = Some x.
Proof.
  intros Hne Hw Hr Hk. destruct w as [|c w]; [congruence|].
  inversion Hw as [|? ? Hc Hw']; subst. cbn [matchAt app]. rewrite Hc.
  now apply star_greedy.
Qed.

Lemma matchAt_star_stopped {A : Type} (p : char -> bool) (s : str)
      (caps : captures) (k : str -> captures -> option A) :
  stops p s -> matchAt (RStar p) s caps k = k s caps.
Proof.
  intros H. destruct s as [|c s]; [reflexivity|].
  simpl in *. now rewrite H.
Qed.

Lemma matchAt_group_plus {A : Type} (n : string) (p : char -> bool)
      (w rest : str) (caps : captures) (k : str -> captures -> option A)
      (x : A) :
  w <> [] -> Forall (fun c => p c = true) w -> stops p rest ->
  k rest ((n, w) :: caps) = Some x ->
  matchAt (RGroup n (RPlus p)) (w ++ rest) caps k = Some x.
Proof.
  intros Hne Hw Hr Hk.
  change (matchAt (RGroup n (RPlus p)) (w ++ rest) caps k)
    with (matchAt (RPlus p) (w ++ rest) caps
            (fun s' caps' =>
               k s' ((n, firstn (List.length (w ++ rest) - List.length s')
                           (w ++ rest)) :: caps'))).
  apply matchAt_plus; try assumption.
  now rewrite length_app, Nat.add_sub, firstn_app, Nat.sub_diag,
    firstn_all, app_nil_r.
Qed.

Lemma matchAt_group_star {A : Type} (n : string) (p : char -> bool)
      (w rest : str) (caps : captures) (k : str -> captures -> option A)
      (x : A) :
  Forall (fun c => p c = true) w -> stops p rest ->
  k rest ((n, w) :: caps) = Some x ->
  matchAt (RGroup n (RStar p)) (w ++ rest) caps k = Some x.
Proof.
  intros Hw Hr Hk.
  change (matchAt (RGroup n (RStar p)) (w ++ rest) caps k)
    with (star p (w ++ rest)
            (fun s' =>
               k s' ((n, firstn (List.length (w ++ rest) - List.length s')
                           (w ++ rest)) :: caps))).
  apply star_greedy; try assumption.
  now rewrite length_app, Nat.add_sub, firstn_app, Nat.sub_diag,
    firstn_all, app_nil_r.
Qed.

Lemma matchAt_opt_absent {A : Type} (lt s : str) (caps : captures)
      (k : str -> captures -> option A) :
  stripPrefix lt s = None ->
  matchAt (ROpt (RLit lt)) s caps k = k s caps.
Proof. intros H. simpl. now rewrite H. Qed.

Lemma matchAt_opt_seq_absent {A : Type} (lt : str) (r : regex) (s : str)
      (caps : captures) (k : str -> captures -> option A) :
  stripPrefix lt s = None ->
  matchAt (ROpt (RSeq (RLit lt) r)) s caps k = k s caps.
Proof. intros H. simpl. now rewrite H. Qed.

Lemma matchAt_class {A : Type} (p : char -> bool) (c : char) (s : str)
      (caps : captures) (k : str -> captures -> option A) :
  p c = true -> matchAt (RClass p) (c :: s) caps k = k s caps.
Proof. intros H. simpl. now rewrite H. Qed.

Lemma search_at_start (r : regex) (s : str) (found : captures) :
  matchAt r s [] (fun _ caps => Some caps) = Some found ->
  search r s = Some found.
Proof. intros H. destruct s; simpl; now rewrite H. Qed.

(** A literal without the character [c] is found before [c] only inside
    the text that precedes [c]. *)
Lemma stripPrefix_before (l w : str) (c : char) (rest : str) :
  ~ In c l -> startsWith l w = false ->
  stripPrefix l (w ++ c :: rest) = None.
Proof.
  revert w. induction l as [|x l IH]; intros w Hc Hs; [discriminate Hs|].
  destruct w as [|y w]; simpl.
  - destruct (N.eqb x c) eqn:Hx; [|reflexivity].
    apply N.eqb_eq in Hx. subst. simpl in Hc. tauto.
  - simpl in Hs. destruct (N.eqb x y); [|reflexivity].
    apply IH; [simpl in Hc; tauto | exact Hs].
Qed.

Lemma stops_head (p : char -> bool) (c : char) (w rest : str) :
  p c = false -> stops p ((c :: w) ++ rest).
Proof. intros H. exact H. Qed.

End GreedyRuns.

(** ** Facts about the type tables *)

Section Tables.

(** Every supported return type is a non-empty run of word characters
    and colons that does not begin with [virtual]. *)
Lemma supported_return_type (t : str) :
  In t SUPPORTED_RETURN_TYPES ->
  t <> []
  /\ Forall (fun c => isWord c || N.eqb c 58 = true) t
  /\ startsWith (lit "virtual") t = false.
Proof.
  intros Hin.
  assert (Hall : forallb (fun t => negb (isEmpty t)
                                   && forallb (fun c => isWord c || N.eqb c 58) t
                                   && negb (startsWith (lit "virtual") t))
                   SUPPORTED_RETURN_TYPES = true)
    by (vm_compute; reflexivity).
  rewrite forallb_forall in Hall. specialize (Hall t Hin).
  apply andb_true_iff in Hall as [Hall H3].
  apply andb_true_iff in Hall as [H1 H2].
  apply negb_true_iff in H1, H3. split; [now apply isEmpty_false|].
  split; [|assumption]. apply Forall_forall.
  now rewrite forallb_forall in H2.
Qed.

(** Every supported argument type is a plain type. *)
Lemma supported_arg_type (t : str) :
  In t SUPPORTED_ARG_TYPES -> plainType t.
Proof.
  intros Hin.
  assert (Hall : forallb (fun t => negb (isEmpty t)
                                   && JS.eqb (dropWhile isWhiteSpace t) t
                                   && forallb (fun c => negb (N.eqb c 44)
                                                        && negb (N.eqb c 41)) t)
                   SUPPORTED_ARG_TYPES = true)
    by (vm_compute; reflexivity).
  rewrite forallb_forall in Hall. specialize (Hall t Hin).
  apply andb_true_iff in Hall as [Hall H3].
  apply andb_true_iff in Hall as [H1 H2].
  apply negb_true_iff in H1. rewrite forallb_forall in H3.
  split; [now apply isEmpty_false|]. split; [now apply eqb_eq|].
  split; intros Hc; apply H3 in Hc; vm_compute in Hc; discriminate Hc.
Qed.

Lemma checkArgTypes_supported (signature : str)
      (arguments : list CppArgument) :
  Forall (fun a => In (type a) SUPPORTED_ARG_TYPES) arguments ->
  checkArgTypes signature arguments = OK tt.
Proof.
  induction 1 as [|a l Ha _ IH]; simpl; [reflexivity|].
  apply includes_In in Ha. unfold isSupportedArgType. now rewrite Ha.
Qed.

End Tables.

(** ** Further facts about the generator and the driver *)

Section MoreFacts.

Lemma wordOrColon_not_whiteSpace (c : char) :
  isWord c || N.eqb c 58 = true -> isWhiteSpace c = false.
Proof.
  intros H. apply range_not_whiteSpace.
  apply orb_true_iff in H as [H|H]; [now apply isWord_range|].
  apply N.eqb_eq in H. lia.
Qed.

Lemma join_Forall (P : char -> Prop) (sep : str) (xs : list str) :
  Forall P sep -> Forall (Forall P) xs -> Forall P (join sep xs).
Proof.
  intros Hsep. induction 1 as [|x xs Hx Hxs IH]; [constructor|].
  destruct xs as [|y ys]; [assumption|].
  change (join sep (x :: y :: ys)) with (x ++ sep ++ join sep (y :: ys)).
  apply Forall_app. split; [assumption|].
  apply Forall_app. now split.
Qed.

Lemma not_In_Forall (c : char) (s : str) :
  ~ In c s -> Forall (fun x => negb (N.eqb x c) = true) s.
Proof.
  intros H. apply Forall_forall. intros x Hx.
  apply negb_true_iff, N.eqb_neq. intros ->. tauto.
Qed.

End MoreFacts.

(** A written signature is parsed to its parts. *)
Lemma parseMethodSignature_render (sig : MethodSignature) :
  In (returnType sig) SUPPORTED_RETURN_TYPES ->
  identifier (methodName sig) ->
  Forall (fun a => In (type a) SUPPORTED_ARG_TYPES /\ identifier (name a))
         (args sig) ->
  parseMethodSignature (renderSignature sig) = OK sig.
Proof.
  intros Hrt Hm Ha.
  destruct sig as [arguments m rt]. cbn [args methodName returnType] in *.
  destruct (supported_return_type rt Hrt) as [Hrt1 [Hrt2 Hrt3]].
  destruct (identifier_head m Hm) as [mc [m' [Hmeq Hmc]]].
  assert (Hplain : Forall (fun a => plainType (type a) /\ identifier (name a))
                     arguments).
  { revert Ha. apply Forall_impl. intros a [H1 H2].
    split; [now apply supported_arg_type | assumption]. }
  set (A := join (lit ", ") (map render arguments)).
  assert (HA : Forall (fun c => negb (N.eqb c 41) = true) A).
  { apply join_Forall; [repeat constructor|].
    apply Forall_map. revert Hplain. apply Forall_impl.
    intros a [H1 H2]. now apply not_In_Forall, render_no_paren. }
  assert (Hsearch :
            search sigRegex
              (renderSignature
                 {| args := arguments; methodName := m; returnType := rt |})
            = Some [("args", A); ("methodName", m); ("returnType", rt)]).
  { apply search_at_start. unfold renderSignature, sigRegex.
    cbn [seq fold_right args methodName returnType]. fold A.
    rewrite matchAt_seq, matchAt_lit. cbv beta.
    rewrite matchAt_seq.
    apply matchAt_plus;
      [discriminate | repeat constructor | reflexivity | cbv beta].
    rewrite matchAt_seq, matchAt_lit. cbv beta.
    rewrite matchAt_seq.
    apply matchAt_plus;
      [discriminate | repeat constructor | | cbv beta].
    { destruct rt as [|c rt']; [congruence|]. inversion Hrt2; subst.
      apply stops_head. now apply wordOrColon_not_whiteSpace. }
    rewrite matchAt_seq, matchAt_opt_seq_absent.
    2:{ change (lit " " ++ m ++ lit "(" ++ A ++ lit ")")
          with (32%N :: m ++ lit "(" ++ A ++ lit ")").
        apply stripPrefix_before; [|assumption].
        vm_compute. intuition discriminate. }
    rewrite matchAt_seq.
    apply matchAt_group_plus;
      [assumption | assumption | reflexivity | cbv beta].
    rewrite matchAt_seq.
    apply matchAt_plus;
      [discriminate | repeat constructor | | cbv beta].
    { subst m. apply stops_head. now apply isWord_not_whiteSpace. }
    assert (Hno : forall c, (c < 48)%N ->
                            stripPrefix [c] (m ++ lit "(" ++ A ++ lit ")")
                            = None).
    { intros c Hc. subst m. simpl. apply isWord_range in Hmc.
      replace (N.eqb c mc) with false; [reflexivity|].
      symmetry. apply N.eqb_neq. lia. }
    rewrite matchAt_seq, matchAt_opt_absent by (apply Hno; reflexivity).
    rewrite matchAt_seq, matchAt_opt_absent by (apply Hno; reflexivity).
    rewrite matchAt_seq, matchAt_star_stopped
      by (subst m; apply stops_head; now apply isWord_not_whiteSpace).
    rewrite matchAt_seq.
    apply matchAt_group_plus;
      [now destruct Hm | now destruct Hm | reflexivity | cbv beta].
    change (lit "(" ++ A ++ lit ")") with (40%N :: A ++ lit ")").
    rewrite matchAt_seq, matchAt_class by reflexivity.
    rewrite matchAt_seq.
    apply matchAt_group_star; [assumption | reflexivity | cbv beta].
    reflexivity. }
  unfold parseMethodSignature. rewrite Hsearch.
  change (group "returnType"
            [("args", A); ("methodName", m); ("returnType", rt)]) with rt.
  change (group "args"
            [("args", A); ("methodName", m); ("returnType", rt)]) with A.
  change (group "methodName"
            [("args", A); ("methodName", m); ("returnType", rt)]) with m.
  apply includes_In in Hrt. unfold isSupportedReturnType. rewrite Hrt.
  cbn [negb]. unfold A. rewrite (parseArgs_render arguments Hplain).
  rewrite checkArgTypes_supported; [reflexivity|].
  revert Ha. apply Forall_impl. now intros a [H _].
Qed.

Section Success.

Lemma parseMethodSignature_supported (signature : str)
      (sig : MethodSignature) :
  parseMethodSignature signature = OK sig ->
  In (returnType sig) SUPPORTED_RETURN_TYPES
  /\ Forall (fun a => In (type a) SUPPORTED_ARG_TYPES) (args sig).
Proof.
  unfold parseMethodSignature.
  destruct (search sigRegex signature) as [found|]; [|discriminate].
  destruct (isSupportedReturnType _) eqn:Hr; [|discriminate]. cbn [negb].
  destruct (checkArgTypes _ _) as [u|v] eqn:Hc; unfold bind; [|discriminate].
  intros H. apply OK_inj in H. subst sig. cbn [args returnType].
  split; [now apply includes_In|].
  apply checkArgTypes_ok in Hc. revert Hc. apply Forall_impl.
  intros a Ha. now apply includes_In.
Qed.

Lemma hasRules_supported (t : str) :
  In t SUPPORTED_ARG_TYPES -> t <> lit "QPoint" -> hasRules t = true.
Proof.
  intros Hin Hne.
  assert (Hall : forallb hasRules typesWithRules = true)
    by (vm_compute; reflexivity).
  rewrite forallb_forall in Hall. apply Hall. apply filter_In.
  split; [assumption|]. apply negb_true_iff.
  destruct (JS.eqb t (lit "QPoint")) eqn:He; [|reflexivity].
  apply eqb_eq in He. contradiction.
Qed.

Lemma argExtraction_QPoint (i : nat) (arg : CppArgument) :
  type arg = lit "QPoint" -> exists v, argExtraction i arg = Throw v.
Proof.
  destruct arg as [t n]. cbn [type]. intros ->. eexists.
  unfold argExtraction. cbn [type name]. reflexivity.
Qed.

Lemma mapCppToTSArgumentType_QPoint (n : str) :
  exists v, mapCppToTSArgumentType (lit "QPoint") n = Throw v.
Proof. eexists. reflexivity. Qed.

Lemma extractArgs_succeeds (arguments : list CppArgument) :
  Forall (fun a => hasRules (type a) = true) arguments ->
  forall (i : nat) (methodBody : str),
    exists result, extractArgs i arguments methodBody = OK result.
Proof.
  induction 1 as [|a l Ha _ IH]; intros i methodBody; simpl.
  - now eexists.
  - destruct a as [t n]. cbn [type] in Ha.
    destruct (hasRules_sound t Ha i n) as [[stmt ->] _]. unfold bind.
    apply IH.
Qed.

Lemma tsParameters_succeeds (arguments : list CppArgument) :
  Forall (fun a => hasRules (type a) = true) arguments ->
  exists ps, tsParameters arguments = OK ps.
Proof.
  induction 1 as [|a l Ha _ [ps IH]]; simpl.
  - now eexists.
  - destruct a as [t n]. cbn [type name] in *.
    destruct (hasRules_sound t Ha 0 n) as [_ [ts ->]]. unfold bind.
    rewrite IH. now eexists.
Qed.

Lemma tsParameters_only_with_rules (arguments : list CppArgument)
      (ps : list str) :
  tsParameters arguments = OK ps ->
  ~ In (lit "QPoint") (map type arguments).
Proof.
  revert ps. induction arguments as [|a l IH]; intros ps H; [tauto|].
  simpl in H.
  destruct (mapCppToTSArgumentType (type a) (name a)) as [t|v] eqn:Ht;
    [|discriminate H].
  unfold bind in H. destruct (tsParameters l) as [ps'|v]; [|discriminate H].
  cbn [map]. intros [Hq|Hq].
  - rewrite Hq in Ht.
    destruct (mapCppToTSArgumentType_QPoint (name a)) as [v Hv]. congruence.
  - now apply (IH ps').
Qed.

(** The supported return types that [resultPacking] and
    [mapCppToTsReturnType] both know. *)
Lemma return_rules (t : str) :
  In t SUPPORTED_RETURN_TYPES ->
  ((exists p, resultPacking t = OK p)
   <-> ~ In t [lit "Qt::ContextMenuPolicy"; lit "Qt::WindowFlags"])
  /\ ((exists r, mapCppToTsReturnType t = OK r) <-> t <> lit "GLclampf").
Proof.
  intros Hin.
  assert (Hall :
            forallb
              (fun t =>
                 Bool.eqb (match resultPacking t with OK _ => true
                                                 | Throw _ => false end)
                   (negb (includes [lit "Qt::ContextMenuPolicy";
                                    lit "Qt::WindowFlags"] t))
                 && Bool.eqb (match mapCppToTsReturnType t with
                              | OK _ => true | Throw _ => false end)
                      (negb (JS.eqb t (lit "GLclampf"))))
              SUPPORTED_RETURN_TYPES = true)
    by (vm_compute; reflexivity).
  rewrite forallb_forall in Hall. specialize (Hall t Hin).
  apply andb_true_iff in Hall as [H1 H2].
  apply Bool.eqb_prop in H1, H2. split.
  - destruct (resultPacking t) as [p|v].
    + symmetry in H1. apply negb_true_iff in H1.
      split; [|now eexists]. intros _ Hc. apply includes_In in Hc. congruence.
    + symmetry in H1. apply negb_false_iff, includes_In in H1.
      split; [intros [p Hp]; discriminate Hp | tauto].
  - destruct (mapCppToTsReturnType t) as [r|v].
    + symmetry in H2. apply negb_true_iff in H2.
      split; [|now eexists]. intros _ ->.
      assert (JS.eqb (lit "GLclampf") (lit "GLclampf") = true)
        by now apply eqb_eq.
      congruence.
    + symmetry in H2. apply negb_false_iff, eqb_eq in H2.
      split; [intros [r Hr]; discriminate Hr | tauto].
Qed.

Lemma with_rules (arguments : list CppArgument) :
  Forall (fun a => In (type a) SUPPORTED_ARG_TYPES) arguments ->
  ~ In (lit "QPoint") (map type arguments) ->
  Forall (fun a => hasRules (type a) = true) arguments.
Proof.
  induction 1 as [|a l Ha _ IH]; intros Hq; constructor.
  - apply hasRules_supported; [assumption|].
    intros He. apply Hq. left. exact He.
  - apply IH. intros Hin. apply Hq. now right.
Qed.

End Success.

(** An accepted line whose types all have their rules expands to an
    [ok] result. *)
Lemma expandMethod_succeeds (className signature : str)
      (sig : MethodSignature) :
  parseMethodSignature signature = OK sig ->
  ~ In (lit "QPoint") (map type (args sig)) ->
  ~ In (returnType sig)
    [lit "GLclampf"; lit "Qt::ContextMenuPolicy"; lit "Qt::WindowFlags"] ->
  exists d n b t, expandMethod className signature = VOk d n b t.
Proof.
  intros Hp Hq Hr.
    destruct (parseMethodSignature_supported _ _ Hp) as [Hrt Hargs].
    destruct (return_rules _ Hrt) as [Hpack Hmap].
    pose proof (with_rules _ Hargs Hq) as Hrules.
    destruct Hpack as [_ Hpack]. destruct Hpack as [pk Hpk].
    { intros Hc. apply Hr. now right. }
    destruct Hmap as [_ Hmap]. destruct Hmap as [r Hmr].
    { intros Hc. apply Hr. left. now symmetry. }
    destruct (tsParameters_succeeds _ Hrules) as [ps Hps].
    unfold expandMethod. rewrite Hp. unfold bind at 1.
    unfold formatCppMethodBody.
    destruct (extractArgs_succeeds _ Hrules 0
                (nl ++ lit "Napi::Value " ++ className ++ lit "Wrap::"
                 ++ methodName sig
                 ++ lit "(const Napi::CallbackInfo& info) {" ++ nl
                 ++ lit "  Napi::Env env = info.Env();" ++ nl)) as [mb ->].
    unfold bind at 2. rewrite Hpk. unfold bind at 2. unfold bind at 1.
    unfold formatTSMethod, tsHead. rewrite Hps, Hmr. unfold bind.
    now eexists _, _, _, _.
Qed.

Section PropertySuccess.

Lemma isCase_single (t : str) (label : string) :
  isCase t [label] = true <-> t = lit label.
Proof.
  unfold isCase. rewrite includes_In. cbn [map In].
  split; [intros [H|[]]; now symmetry | intros ->; now left].
Qed.

Lemma propertyBody_succeeds_iff (m : str) (arguments : list CppArgument)
      (rt : str) :
  (exists body, propertyBody m arguments rt = OK body)
  <-> (rt = lit "void" -> 4 <= List.length m).
Proof.
  unfold propertyBody. cbv zeta. destruct (isCase rt ["void"]) eqn:Hv.
  - apply isCase_single in Hv. split.
    + intros [body H] _.
      destruct (Nat.lt_ge_cases (List.length m) 4) as [Hlt|Hge];
        [|assumption].
      rewrite (charAt3Lower_short m Hlt) in H. discriminate H.
    + intros H. destruct (charAt3Lower_key m (H Hv)) as [c [-> _]].
      unfold bind. now eexists.
  - split.
    + intros _ Hr. apply isCase_single in Hr. congruence.
    + intros _.
      repeat (match goal with
              | |- exists _, (if ?c then _ else _) = _ => destruct c
              end; [eexists; reflexivity|]).
      eexists; reflexivity.
Qed.

End PropertySuccess.

Section TypedMethod.

Lemma tsParameters_shape (arguments : list CppArgument) :
  forall ps : list str,
    tsParameters arguments = OK ps ->
    List.length ps = List.length arguments
    /\ forall i arg, nth_error arguments i = Some arg ->
         exists t, nth_error ps i = Some (name arg ++ lit ": " ++ t)
                   /\ mapCppToTSArgumentType (type arg) (name arg) = OK t.
Proof.
  induction arguments as [|a l IH]; intros ps H; simpl in H.
  - apply OK_inj in H. subst ps. split; [reflexivity|].
    intros [|i] arg Hi; discriminate Hi.
  - destruct (mapCppToTSArgumentType (type a) (name a)) as [t|v] eqn:Ht;
      [|discriminate H].
    unfold bind in H.
    destruct (tsParameters l) as [ps'|v]; [|discriminate H].
    apply OK_inj in H. subst ps.
    destruct (IH ps' eq_refl) as [Hlen Hnth]. split.
    + simpl. now rewrite Hlen.
    + intros [|i] arg Hi; simpl in Hi.
      * apply (f_equal (fun o => match o with Some x => x | None => a end))
          in Hi. subst arg. exists t. now split.
      * now apply Hnth.
Qed.

(** The text of a typed method. *)
Lemma formatTSMethod_shape (m : str) (arguments : list CppArgument)
      (rt ts : str) :
  formatTSMethod m arguments rt = OK ts ->
  exists ps r body,
    tsParameters arguments = OK ps
    /\ mapCppToTsReturnType rt = OK r
    /\ ts = lit "    " ++ formatTSMethodName m ++ lit "("
            ++ join (lit ", ") ps ++ lit "): " ++ r ++ lit " {" ++ nl
            ++ body
    /\ contains (lit "this.native." ++ m ++ lit "("
                 ++ join (lit ", ") (map tsCallArgument arguments)
                 ++ lit ")") body.
Proof.
  unfold formatTSMethod, tsHead. intros H.
  destruct (tsParameters arguments) as [ps|v]; [|discriminate H].
  unfold bind at 2 in H.
  destruct (mapCppToTsReturnType rt) as [r|v]; [|discriminate H].
  unfold bind in H. cbv zeta in H.
  set (methodCall := lit "this.native." ++ m ++ lit "("
                     ++ join (lit ", ") (map tsCallArgument arguments)
                     ++ lit ")") in *.
  apply OK_inj in H. subst ts.
  eexists ps, r, _. split; [reflexivity|]. split; [reflexivity|].
  split; [rewrite <- !app_assoc; reflexivity|].
  repeat match goal with
         | |- context [if ?c then _ else _] => destruct c
         end;
    rewrite <- ?app_assoc; find_occurrence.
Qed.

End TypedMethod.

Section Driver.

Lemma blank_dec (line : str) : {blank line} + {~ blank line}.
Proof.
  unfold blank. destruct (trim line); [now left | right; discriminate].
Qed.

(** The lines of an input are all blank, or there is a first line that
    is not. *)
Lemma first_line (lines : list str) :
  Forall blank lines
  \/ exists blanks line rest,
       lines = blanks ++ line :: rest /\ Forall blank blanks /\ ~ blank line.
Proof.
  induction lines as [|l lines IH]; [left; constructor|].
  destruct (blank_dec l) as [Hl|Hl].
  - destruct IH as [IH|[blanks [line [rest [-> [Hb Hn]]]]]].
    + left. now constructor.
    + right. exists (l :: blanks), line, rest.
      repeat split; [now constructor | assumption].
  - right. exists [], l, lines. repeat split; [constructor | assumption].
Qed.

Lemma processLines_returns (blanks : list str) (line : str)
      (rest : list str) :
  Forall blank blanks -> ~ blank line ->
  exists logged, processLines (blanks ++ line :: rest) = Returned logged.
Proof.
  intros Hb Hn. unfold processLines.
  rewrite (skipBlankLines_stops blanks line rest 0 Hb Hn).
  destruct (Nat.eqb _ _); [now eexists|].
  destruct (matchHeader _) as [[found isProp]|]; [|now eexists].
  destruct (bodyLoop _ _ _ _); now eexists.
Qed.

Lemma processLines_no_header (blanks : list str) (line : str)
      (rest : list str) :
  Forall blank blanks -> ~ blank line -> matchHeader line = None ->
  processLines (blanks ++ line :: rest) =
    Returned [lit "ERROR: Unable to find CLASS or PROP comment. i.e. // CLASS: FooBarWidget"].
Proof.
  intros Hb Hn Hh. unfold processLines.
  rewrite (skipBlankLines_stops blanks line rest 0 Hb Hn). simpl Nat.add.
  replace (Nat.eqb (List.length blanks)
             (List.length (blanks ++ line :: rest))) with false.
  2:{ symmetry. apply Nat.eqb_neq. rewrite length_app. simpl. lia. }
  rewrite app_nth2 by lia. rewrite Nat.sub_diag. simpl nth.
  now rewrite Hh.
Qed.

Lemma dropWhile_snoc (p : char -> bool) (l : str) (c : char) :
  p c = false -> dropWhile p (l ++ [c]) = dropWhile p l ++ [c].
Proof.
  intros Hc. induction l as [|y l IH]; simpl.
  - now rewrite Hc.
  - destruct (p y); [assumption | reflexivity].
Qed.

Lemma dropWhile_rev_fixed (p : char -> bool) (u : str) :
  dropWhile p u = u ->
  dropWhile p (rev (dropWhile p (rev u))) = rev (dropWhile p (rev u)).
Proof.
  destruct u as [|c u]; [reflexivity|]. intros H.
  assert (Hc : p c = false).
  { simpl in H. destruct (p c) eqn:Hc; [|reflexivity]. exfalso.
    assert (Hlen : List.length (dropWhile p u) <= List.length u).
    { clear. induction u as [|x u IH]; simpl; [lia|].
      destruct (p x); simpl; lia. }
    rewrite H in Hlen. simpl in Hlen. lia. }
  simpl rev. rewrite dropWhile_snoc by assumption.
  rewrite rev_app_distr. simpl. now rewrite Hc.
Qed.

(** [trim] of a trimmed text changes nothing. *)
Lemma trim_idempotent (s : str) : trim (trim s) = trim s.
Proof.
  apply trim_fixed.
  - unfold trim. apply dropWhile_rev_fixed, dropWhile_idempotent.
  - unfold trim. rewrite rev_involutive. apply dropWhile_idempotent.
Qed.

Lemma expandMethod_result (className signature : str) :
  (exists d n b t, expandMethod className signature
                   = VOk (Some d) (Some n) (Some b) (Some t))
  \/ (exists m, expandMethod className signature = VFailed m).
Proof.
  unfold expandMethod.
  destruct (parseMethodSignature signature) as [sig|v]; cbn [bind];
    [|right; eexists; reflexivity].
  destruct (formatCppMethodBody _ _ _ _) as [body|v]; cbn [bind];
    [|right; eexists; reflexivity].
  destruct (formatTSMethod _ _ _) as [ts|v]; cbn [bind];
    [left; eexists _, _, _, _; reflexivity | right; eexists; reflexivity].
Qed.

Lemma bodyLoop_operation_lengths (className : str) (lines : list str) :
  forall b b' : blocks,
    bodyLoop false className lines b = Completed b' ->
    List.length (cppDeclaration b') =
      List.length (cppDeclaration b) + List.length (signatureLines lines)
    /\ List.length (napiInitBlock b') =
         List.length (napiInitBlock b) + List.length (signatureLines lines)
    /\ List.length (bodyBlock b') =
         List.length (bodyBlock b) + List.length (signatureLines lines)
    /\ List.length (tsBlock b') =
         List.length (tsBlock b) + List.length (signatureLines lines).
Proof.
  induction lines as [|l lines IH]; intros b b' H; simpl in H.
  - apply (f_equal (fun e => match e with Completed x => x | _ => b end))
      in H. subst b'. simpl. lia.
  - unfold signatureLines in *. cbn [filter].
    destruct (isEmpty (trim l)); cbn [negb]; [now apply IH|].
    unfold expandLine in H.
    destruct (expandMethod_result className (trim l))
      as [[d [n [bd [t He]]]]|[m He]]; rewrite He in H; simpl in H;
      [|discriminate H].
    apply IH in H. cbn [cppDeclaration napiInitBlock bodyBlock tsBlock] in H.
    rewrite !length_app in H. simpl in *. lia.
Qed.

End Driver.

Section WholeOutput.

Lemma indented_not_error (s : str) : indented s -> ~ errorLine s.
Proof.
  intros [c [rest [-> Hc]]] [H|H]; simpl in H;
    destruct Hc as [-> | ->]; discriminate H.
Qed.

Lemma join_indented (fragments : list str) :
  Forall indented fragments ->
  join [] fragments = [] \/ indented (join [] fragments).
Proof.
  intros H. destruct H as [|f fs [c [rest [-> Hc]]] _]; [now left|].
  right. exists c. destruct fs; simpl; eauto.
Qed.

Lemma section_no_error (title : string) (fragments : list str) (line : str) :
  ~ errorLine (lit title) ->
  Forall indented fragments ->
  In line (section title fragments) -> ~ errorLine line.
Proof.
  intros Ht Hf. unfold section. destruct (Nat.eqb _ 0); [intros []|].
  intros [<-|[<-|[<-|[<-|[]]]]].
  - intros [H|H]; discriminate H.
  - assumption.
  - destruct (join_indented fragments Hf) as [-> | Hi].
    + intros [H|H]; discriminate H.
    + now apply indented_not_error.
  - intros [H|H]; discriminate H.
Qed.

Lemma emit_no_error (className : str) (b : blocks) (line : str) :
  blocksIndented b -> In line (emit className b) -> ~ errorLine line.
Proof.
  intros [Hd [Hn [Hb Ht]]]. unfold emit. rewrite !in_app_iff.
  intros [H|[H|[H|[H|H]]]].
  - destruct H as [<-|[]]. intros [H|H]; discriminate H.
  - revert H. apply section_no_error; [|assumption].
    intros [H|H]; discriminate H.
  - revert H. apply section_no_error; [|assumption].
    intros [H|H]; discriminate H.
  - revert H. apply section_no_error; [|assumption].
    intros [H|H]; discriminate H.
  - destruct H as [<-|[<-|[<-|[]]]].
    + intros [H|H]; discriminate H.
    + intros [H|H]; discriminate H.
    + destruct (join_indented (tsBlock b) Ht) as [-> | Hi].
      * intros [H|H]; discriminate H.
      * now apply indented_not_error.
Qed.

Lemma indented_blank (rest : str) : indented (lit " " ++ rest).
Proof. exists 32%N, rest. split; [reflexivity | now left]. Qed.

Lemma tsHead_indented (m : str) (arguments : list CppArgument)
      (rt h rest : str) :
  tsHead m arguments rt = OK h -> indented (h ++ rest).
Proof.
  unfold tsHead. destruct (tsParameters arguments) as [ps|v];
    [|discriminate].
  cbn [bind]. destruct (mapCppToTsReturnType rt) as [r|v]; [|discriminate].
  cbn [bind]. intros H. apply OK_inj in H. subst h.
  exists 32%N. eexists. split; [|now left].
  rewrite <- !app_assoc. reflexivity.
Qed.

Lemma expandLine_indented (isProp : bool) (className trimLine : str)
      (d n b t : option str) :
  expandLine isProp className trimLine = VOk d n b t ->
  forall (x : option str) (s : str),
    In x [d; n; b; t] -> x = Some s -> indented s.
Proof.
  unfold expandLine. destruct isProp.
  - unfold expandProperty.
    destruct (parseMethodSignature trimLine) as [sig|v] eqn:Hp; cbn [bind].
    2:{ intros ->. apply parseMethodSignature_throws in Hp as [m Hm].
        discriminate Hm. }
    unfold formatTSProperty.
    destruct (tsHead _ _ _) as [h|v] eqn:Hh; cbn [bind].
    2:{ intros ->. apply tsHead_throws in Hh. discriminate Hh. }
    destruct (propertyBody _ _ _) as [body|v] eqn:Hb; cbn [bind].
    2:{ intros ->. apply propertyBody_throws in Hb. discriminate Hb. }
    intros H x s Hin ->. injection H as <- <- <- <-.
    destruct Hin as [H|[H|[H|[H|[]]]]]; try discriminate H.
    injection H as <-. now apply (tsHead_indented _ _ _ _ _ Hh).
  - intros H x s Hin ->.
    apply expandMethod_ok in H
      as [sig [body [ts [Hp [Hb [Ht [-> [-> [-> ->]]]]]]]]].
    destruct Hin as [H|[H|[H|[H|[]]]]]; injection H as <-.
    + exists 32%N. eexists. split; [reflexivity | now left].
    + exists 32%N. eexists. split; [reflexivity | now left].
    + apply formatCppMethodBody_shape in Hb as [stmts [pk [-> _]]].
      exists 10%N. eexists. split; [reflexivity | now right].
    + unfold formatTSMethod in Ht.
      destruct (tsHead _ _ _) as [h|v] eqn:Hh; [|discriminate Ht].
      cbn [bind] in Ht. apply OK_inj in Ht. subst ts.
      rewrite <- app_assoc. now apply (tsHead_indented _ _ _ _ _ Hh).
Qed.

Lemma pushNonNull_indented (xs : list str) (x : option str) :
  Forall indented xs -> (forall s, x = Some s -> indented s) ->
  Forall indented (pushNonNull xs x).
Proof.
  intros Hxs Hx. destruct x as [s|]; [|assumption]. simpl.
  apply Forall_app. split; [assumption|]. constructor; [|constructor].
  now apply Hx.
Qed.

Lemma bodyLoop_indented (isProp : bool) (className : str)
      (lines : list str) :
  forall b b' : blocks,
    blocksIndented b ->
    bodyLoop isProp className lines b = Completed b' ->
    blocksIndented b'.
Proof.
  induction lines as [|l lines IH]; intros b b' Hb H; simpl in H.
  - injection H as <-. assumption.
  - destruct (isEmpty (trim l)); [now apply (IH b)|].
    destruct (expandLine isProp className (trim l))
      as [s|m|d n bd t|m|m] eqn:He; simpl in H;
      try discriminate H; try (now apply (IH b)).
    apply IH in H; [assumption|].
    destruct Hb as [H1 [H2 [H3 H4]]].
    pose proof (expandLine_indented _ _ _ _ _ _ _ He) as Hi.
    repeat split; cbn [cppDeclaration napiInitBlock bodyBlock tsBlock];
      apply pushNonNull_indented; try assumption; intros s Hs;
      apply (Hi _ s) in Hs; try assumption; simpl; tauto.
Qed.

Lemma noBlocks_indented : blocksIndented noBlocks.
Proof. repeat split; constructor. Qed.

(** Whatever [process] returns holds an error line only as its single
    line. *)
Lemma unwrapObject_pointer (T indent : string) (i : nat) (n : str) :
  contains (lit "* " ++ n ++ lit " = " ++ n
            ++ lit "Wrap->getInternalInstance();")
    (unwrapObject T indent i n).
Proof.
  unfold unwrapObject. eexists _, []. rewrite app_nil_r.
  rewrite !app_assoc. reflexivity.
Qed.

Lemma argExtraction_dereferenced (i : nat) (arg : CppArgument) (stmt : str) :
  In (type arg) DEREFERENCE_TYPES ->
  argExtraction i arg = OK stmt ->
  contains (lit "* " ++ name arg ++ lit " = " ++ name arg
            ++ lit "Wrap->getInternalInstance();") stmt.
Proof.
  destruct arg as [t n]. cbn [type name]. intros Hin.
  unfold DEREFERENCE_TYPES in Hin. cbn [map In] in Hin.
  repeat (destruct Hin as [<-|Hin];
          [intros H; first [discriminate H
                           | apply OK_inj in H; subst stmt;
                             apply unwrapObject_pointer]|]).
  destruct Hin.
Qed.

End WholeOutput.

Section WellWritten.

Lemma renderSignature_trimmed (sig : MethodSignature) :
  trim (renderSignature sig) = renderSignature sig.
Proof.
  apply trim_fixed; [reflexivity|].
  unfold renderSignature. rewrite !app_assoc, rev_app_distr. reflexivity.
Qed.

Lemma wellWritten_parses (sig : MethodSignature) :
  wellWritten sig ->
  parseMethodSignature (renderSignature sig) = OK sig
  /\ ~ In (lit "QPoint") (map type (args sig)).
Proof.
  intros [Hrt [_ [Hm Ha]]]. split.
  - apply parseMethodSignature_render; try assumption.
    revert Ha. apply Forall_impl. tauto.
  - intros Hin. apply in_map_iff in Hin as [a [Hq Hin]].
    rewrite Forall_forall in Ha. apply Ha in Hin. tauto.
Qed.

Lemma bodyLoop_wellWritten (className : str) (sigs : list MethodSignature) :
  Forall wellWritten sigs ->
  forall b : blocks,
    exists b', bodyLoop false className (map renderSignature sigs) b
               = Completed b'.
Proof.
  induction 1 as [|sig sigs Hs _ IH]; intros b; cbn [map bodyLoop].
  - now eexists.
  - rewrite renderSignature_trimmed.
    change (isEmpty (renderSignature sig)) with false. cbv iota.
    unfold expandLine.
    destruct (wellWritten_parses sig Hs) as [Hp Hq].
    destruct (expandMethod_succeeds className (renderSignature sig) sig Hp Hq)
      as [d [n [bd [t He]]]].
    { now destruct Hs as [_ [H _]]. }
    rewrite He. cbn [handleResult]. apply IH.
Qed.

Lemma signatureLines_rendered (sigs : list MethodSignature) :
  signatureLines (map renderSignature sigs) = map renderSignature sigs.
Proof.
  unfold signatureLines. induction sigs as [|sig sigs IH]; [reflexivity|].
  cbn [map filter]. rewrite renderSignature_trimmed.
  change (isEmpty (renderSignature sig)) with false. cbn [negb].
  now rewrite IH.
Qed.

End WellWritten.

Section OlderFacts.

Variable expandMethod : str -> str -> res value.
Variable banner : bool.

Lemma older_bodyLoop_aborts (className : str) (valid : list str)
      (invalid : str) (more : list str) (message : value) :
  Forall (fun l => blank l
                   \/ exists d n b t,
                        expandMethod className (trim l) = OK (VOk d n b t))
         valid ->
  ~ blank invalid ->
  expandMethod className (trim invalid) = OK (VFailed message) ->
  forall b,
    Older.bodyLoop expandMethod className (valid ++ invalid :: more) b =
      Older.Aborted (lit ">>> ERROR: " ++ toString message).
Proof.
  intros Hv Hn He. induction Hv as [|l ls Hl _ IH]; intros b; simpl.
  - apply isEmpty_false in Hn. rewrite Hn, He. reflexivity.
  - destruct Hl as [Hl|[d [n [bd [t Hl]]]]].
    + unfold blank in Hl. rewrite Hl. simpl. apply IH.
    + destruct (isEmpty (trim l)); [apply IH|].
      rewrite Hl. simpl. apply IH.
Qed.

Lemma older_processLines_header (blanks : list str) (header : str)
      (body : list str) (found : captures) :
  Forall blank blanks ->
  search classNameRegex header = Some found ->
  Older.processLines expandMethod banner (blanks ++ header :: body) =
    match Older.bodyLoop expandMethod (group "className" found) body
            Older.noBlocks with
    | Older.Aborted logged => Returned [logged]
    | Older.Threw e => Uncaught [] e
    | Older.Completed b =>
        Returned (Older.emit banner (group "className" found) b)
    end.
Proof.
  intros Hb Hh. unfold Older.processLines.
  assert (Hn : ~ blank header).
  { apply (matchHeader_not_blank header found false).
    unfold matchHeader. now rewrite Hh. }
  rewrite (skipBlankLines_stops blanks header body 0 Hb Hn).
  simpl Nat.add.
  replace (Nat.eqb (List.length blanks)
             (List.length (blanks ++ header :: body))) with false.
  2:{ symmetry. apply Nat.eqb_neq. rewrite length_app. simpl. lia. }
  rewrite app_nth2 by lia. rewrite Nat.sub_diag. simpl nth. rewrite Hh.
  replace (skipn (S (List.length blanks)) (blanks ++ header :: body))
    with body.
  2:{ change (header :: body) with ([header] ++ body).
      rewrite app_assoc.
      replace (S (List.length blanks)) with (List.length (blanks ++ [header]))
        by (rewrite length_app; simpl; lia).
      now rewrite skipn_app, skipn_all, Nat.sub_diag. }
  reflexivity.
Qed.

End OlderFacts.

(** ** Further properties *)

Lemma identifier_check (n : str) :
  negb (isEmpty n) && forallb isWord n = true -> identifier n.
Proof.
  intros H. apply andb_true_iff in H as [H1 H2]. split.
  - apply isEmpty_false. now apply negb_true_iff.
  - apply Forall_forall. now rewrite forallb_forall in H2.
Qed.

(** X5 (the written format is accepted).  A line [// TODO: R m(T1 n1,
    ..., Tk nk)] whose return type is in [SUPPORTED_RETURN_TYPES], whose
    method name and argument names are identifiers and whose argument
    types are in [SUPPORTED_ARG_TYPES] is accepted by
    [parseMethodSignature], and the result is exactly its return type,
    method name and arguments. *)
Theorem X5_written_signature_accepted (sig : MethodSignature) :
  In (returnType sig) SUPPORTED_RETURN_TYPES ->
  identifier (methodName sig) ->
  Forall (fun a => In (type a) SUPPORTED_ARG_TYPES /\ identifier (name a))
         (args sig) ->
  parseMethodSignature (renderSignature sig) = OK sig.
Proof. exact (parseMethodSignature_render sig). Qed.

Lemma X5_written_signature_accepted_witness :
  parseMethodSignature (lit "// TODO: void moveTo(const QPoint p, int z)") =
    OK {| args := [{| type := lit "const QPoint"; name := lit "p" |};
                   {| type := lit "int"; name := lit "z" |}];
          methodName := lit "moveTo"; returnType := lit "void" |}.
Proof.
  apply (X5_written_signature_accepted
           {| args := [{| type := lit "const QPoint"; name := lit "p" |};
                       {| type := lit "int"; name := lit "z" |}];
              methodName := lit "moveTo"; returnType := lit "void" |}).
  - apply includes_In. reflexivity.
  - apply identifier_check. reflexivity.
  - repeat constructor; cbn [type name];
      first [apply includes_In; reflexivity
            | apply identifier_check; reflexivity].
Defined.


(** X7 (when property mode succeeds).  [expandProperty] gives an [ok]
    result, which carries a typed accessor only, exactly for the lines
    that [parseMethodSignature] accepts with no argument of type
    [QPoint], a return type other than [GLclampf] and, when the return
    type is [void], a method name of at least four characters. *)
Theorem X7_expandProperty_succeeds_iff (signature : str) :
  (exists t, expandProperty signature = VOk None None None (Some t))
  <-> (exists sig,
          parseMethodSignature signature = OK sig
          /\ ~ In (lit "QPoint") (map type (args sig))
          /\ returnType sig <> lit "GLclampf"
          /\ (returnType sig = lit "void" ->
              4 <= List.length (methodName sig))).
Proof.
  split.
  - intros [t H]. unfold expandProperty in H.
    destruct (parseMethodSignature signature) as [sig|v] eqn:Hp.
    2:{ apply parseMethodSignature_throws in Hp as [m ->]. discriminate H. }
    unfold bind at 1 in H.
    destruct (formatTSProperty _ _ _) as [ts|v] eqn:Hf.
    2:{ apply formatTSProperty_throws in Hf. unfold bind in H. subst v.
        discriminate Hf. }
    clear H. exists sig. split; [reflexivity|].
    destruct (parseMethodSignature_supported _ _ Hp) as [Hrt Hargs].
    destruct (return_rules _ Hrt) as [_ Hmap].
    unfold formatTSProperty, tsHead in Hf.
    destruct (tsParameters (args sig)) as [ps|v] eqn:Hps;
      [|discriminate Hf].
    unfold bind at 2 in Hf.
    destruct (mapCppToTsReturnType (returnType sig)) as [r|v] eqn:Hr;
      [|discriminate Hf].
    unfold bind at 2 in Hf. unfold bind at 1 in Hf.
    destruct (propertyBody _ _ _) as [body|v] eqn:Hb; [|discriminate Hf].
    split; [now apply (tsParameters_only_with_rules _ ps)|].
    split; [apply (proj1 Hmap); now eexists|].
    apply (propertyBody_succeeds_iff (methodName sig) (args sig)).
    exists body. exact Hb.
  - intros [sig [Hp [Hq [Hr Hlen]]]].
    destruct (parseMethodSignature_supported _ _ Hp) as [Hrt Hargs].
    destruct (return_rules _ Hrt) as [_ [_ Hmap]].
    destruct (Hmap Hr) as [r Hmr].
    pose proof (with_rules _ Hargs Hq) as Hrules.
    destruct (tsParameters_succeeds _ Hrules) as [ps Hps].
    destruct (proj2 (propertyBody_succeeds_iff (methodName sig) (args sig)
                       (returnType sig)) Hlen) as [body Hb].
    unfold expandProperty. rewrite Hp. unfold bind at 1.
    unfold formatTSProperty, tsHead. rewrite Hps, Hmr, Hb. unfold bind.
    now eexists.
Qed.

(** X8 (the typed method forwards).  In every [ok] result of
    [expandMethod] the typed method is headed by the name that
    [formatTSMethodName] gives, one parameter [name: type] per parsed
    argument, in order, with the type that [mapCppToTSArgumentType]
    gives, and the mapped return type; its body calls
    [this.native.m(...)] under the parsed method name with one argument
    per parsed argument, in order: [name.native] when the type is in
    [TS_WRAPPER_TYPES] and [name] otherwise. *)
Theorem X8_typed_method_forwards
  (className signature : str) (d n b : option str) (ts : str) :
  expandMethod className signature = VOk d n b (Some ts) ->
  exists sig ps r body forwarded,
    parseMethodSignature signature = OK sig
    /\ mapCppToTsReturnType (returnType sig) = OK r
    /\ ts = lit "    " ++ formatTSMethodName (methodName sig) ++ lit "("
            ++ join (lit ", ") ps ++ lit "): " ++ r ++ lit " {" ++ nl
            ++ body
    /\ contains (lit "this.native." ++ methodName sig ++ lit "("
                 ++ join (lit ", ") forwarded ++ lit ")") body
    /\ List.length ps = List.length (args sig)
    /\ List.length forwarded = List.length (args sig)
    /\ forall i arg, nth_error (args sig) i = Some arg ->
         (exists t, nth_error ps i = Some (name arg ++ lit ": " ++ t)
                    /\ mapCppToTSArgumentType (type arg) (name arg) = OK t)
         /\ (In (type arg) TS_WRAPPER_TYPES ->
             nth_error forwarded i = Some (name arg ++ lit ".native"))
         /\ (~ In (type arg) TS_WRAPPER_TYPES ->
             nth_error forwarded i = Some (name arg)).
Proof.
  intros H.
  apply expandMethod_ok in H
    as [sig [body' [ts' [Hp [_ [Ht [_ [_ [_ Heq]]]]]]]]].
  injection Heq as <-.
  apply formatTSMethod_shape in Ht as [ps [r [body [Hps [Hr [-> Hc]]]]]].
  destruct (tsParameters_shape _ _ Hps) as [Hlen Hnth].
  exists sig, ps, r, body, (map tsCallArgument (args sig)).
  repeat (split; [assumption || reflexivity|]).
  split; [apply length_map|].
  intros i arg Hi. split; [now apply Hnth|].
  rewrite nth_error_map, Hi. cbn [option_map]. unfold tsCallArgument.
  destruct (includes TS_WRAPPER_TYPES (type arg)) eqn:Hw.
  - split; [reflexivity|]. intros Hn. apply includes_In in Hw. tauto.
  - split; [|reflexivity]. intros Hin. apply includes_In in Hin. congruence.
Qed.

Lemma X8_typed_method_forwards_witness :
  exists sig ps r body forwarded,
    parseMethodSignature (lit "// TODO: QAction *glAct(QMenu *m, int z)")
    = OK sig
    /\ mapCppToTsReturnType (returnType sig) = OK r
    /\ lit "    act(m: QMenu, z: number): QAction {" ++ nl
       ++ lit "        return wrapperCache.getWrapper(this.native.glAct(m.native, z)) as QAction;"
       ++ nl ++ lit "    }" ++ nl
       = lit "    " ++ formatTSMethodName (methodName sig) ++ lit "("
         ++ join (lit ", ") ps ++ lit "): " ++ r ++ lit " {" ++ nl
         ++ body
    /\ contains (lit "this.native." ++ methodName sig ++ lit "("
                 ++ join (lit ", ") forwarded ++ lit ")") body
    /\ List.length ps = List.length (args sig)
    /\ List.length forwarded = List.length (args sig)
    /\ forall i arg, nth_error (args sig) i = Some arg ->
         (exists t, nth_error ps i = Some (name arg ++ lit ": " ++ t)
                    /\ mapCppToTSArgumentType (type arg) (name arg) = OK t)
         /\ (In (type arg) TS_WRAPPER_TYPES ->
             nth_error forwarded i = Some (name arg ++ lit ".native"))
         /\ (~ In (type arg) TS_WRAPPER_TYPES ->
             nth_error forwarded i = Some (name arg)).
Proof.
  eapply (X8_typed_method_forwards (lit "Foo")
            (lit "// TODO: QAction *glAct(QMenu *m, int z)")).
  vm_compute. reflexivity.
Defined.

(** X9 (when an exception escapes).  An exception escapes [process]
    exactly when every line of the input is blank; with a line that is
    not blank [process] always returns. *)
Theorem X9_exception_iff_blank (inputString : str) :
  (exists logged v, process inputString = Uncaught logged v)
  <-> Forall blank (split 10%N inputString).
Proof.
  unfold process. split.
  - intros [logged [v H]].
    destruct (first_line (split 10%N inputString))
      as [Hall|[blanks [line [rest [Hs [Hb Hn]]]]]]; [assumption|].
    rewrite Hs in H.
    destruct (processLines_returns blanks line rest Hb Hn) as [out Ho].
    rewrite Ho in H. discriminate H.
  - intros H. unfold processLines.
    rewrite (skipBlankLines_all_blank _ 0 H). now eexists _, _.
Qed.

(** X10 (missing header).  When the first line that is not blank matches
    neither header pattern, [process] logs the one line that says so and
    returns, whatever follows, also a header further down. *)
Theorem X10_missing_header
  (inputString : str) (blanks : list str) (line : str) (rest : list str) :
  split 10%N inputString = blanks ++ line :: rest ->
  Forall blank blanks -> ~ blank line -> matchHeader line = None ->
  process inputString =
    Returned [lit "ERROR: Unable to find CLASS or PROP comment. i.e. // CLASS: FooBarWidget"].
Proof.
  intros Hs Hb Hn Hh. unfold process. rewrite Hs.
  now apply processLines_no_header.
Qed.

Lemma X10_missing_header_witness :
  process (nl ++ lit "// TODO: int add(int a, int b)" ++ nl
           ++ lit "// CLASS: Foo") =
    Returned [lit "ERROR: Unable to find CLASS or PROP comment. i.e. // CLASS: FooBarWidget"].
Proof.
  apply (X10_missing_header _ [[]] (lit "// TODO: int add(int a, int b)")
           [lit "// CLASS: Foo"]).
  - vm_compute. reflexivity.
  - repeat constructor.
  - unfold blank. vm_compute. discriminate.
  - vm_compute. reflexivity.
Defined.

(** X11 (the second loop over two runs of lines).  Running the second
    loop over [l1 ++ l2] is running it over [l1] and, when that
    completes, over [l2] from the arrays reached; an abort in [l1] is
    the result, whatever [l2] holds. *)
Theorem X11_bodyLoop_app
  (isProp : bool) (className : str) (l1 l2 : list str) (b : blocks) :
  bodyLoop isProp className (l1 ++ l2) b =
    match bodyLoop isProp className l1 b with
    | Completed b' => bodyLoop isProp className l2 b'
    | Aborted logged => Aborted logged
    end.
Proof.
  revert b.
  induction l1 as [|l l1 IH]; intros b; simpl; [reflexivity|].
  destruct (isEmpty (trim l)); [apply IH|].
  destruct (handleResult _ b); [apply IH | reflexivity].
Qed.

(** X12 (layout of the body).  Blank lines among the signature lines and
    white space around a signature line do not matter: the second loop
    gives the same result on the lines and on their trims without the
    empty ones. *)
Theorem X12_body_layout_irrelevant
  (isProp : bool) (className : str) (lines : list str) (b : blocks) :
  bodyLoop isProp className
    (filter (fun l => negb (isEmpty l)) (map trim lines)) b
  = bodyLoop isProp className lines b.
Proof.
  revert b.
  induction lines as [|l lines IH]; intros b; [reflexivity|].
  cbn [map filter]. destruct (isEmpty (trim l)) eqn:He; cbn [negb].
  - simpl. rewrite He. apply IH.
  - simpl. rewrite trim_idempotent, He.
    destruct (handleResult _ b); [apply IH | reflexivity].
Qed.

(** X13 (operation mode fills the four arrays together).  When the
    second loop completes in operation mode, each of the four arrays
    holds one fragment per line that is not blank. *)
Theorem X13_operation_blocks_balanced
  (className : str) (lines : list str) (b : blocks) :
  bodyLoop false className lines noBlocks = Completed b ->
  List.length (cppDeclaration b) = List.length (signatureLines lines)
  /\ List.length (napiInitBlock b) = List.length (signatureLines lines)
  /\ List.length (bodyBlock b) = List.length (signatureLines lines)
  /\ List.length (tsBlock b) = List.length (signatureLines lines).
Proof.
  intros H. apply bodyLoop_operation_lengths in H. simpl in H. exact H.
Qed.

Lemma X13_operation_blocks_balanced_witness :
  let lines := [lit "// TODO: int add(int a, int b)"; lit "  ";
                lit "  // TODO: void clear()"] in
  let b := match bodyLoop false (lit "Foo") lines noBlocks with
           | Completed b => b
           | Aborted _ => noBlocks
           end in
  List.length (cppDeclaration b) = 2 /\ List.length (napiInitBlock b) = 2
  /\ List.length (bodyBlock b) = 2 /\ List.length (tsBlock b) = 2.
Proof.
  intros lines b.
  change 2 with (List.length (signatureLines lines)).
  apply (X13_operation_blocks_balanced (lit "Foo") lines b).
  vm_compute. reflexivity.
Defined.

(** X14 (an error is the whole output).  Whenever [process] returns and
    one of the logged lines begins with [ERROR: ] or [>>> ERROR: ], that
    line is all that was logged. *)
Theorem X14_error_is_whole_output
  (inputString : str) (logged : list str) (line : str) :
  process inputString = Returned logged ->
  In line logged -> errorLine line -> logged = [line].
Proof.
  unfold process. generalize (split 10%N inputString). intros lines.
  intros H Hin He.
  destruct (first_line lines)
    as [Hall|[blanks [hdr [rest [-> [Hb Hn]]]]]].
  - unfold processLines in H.
    rewrite (skipBlankLines_all_blank lines 0 Hall) in H. discriminate H.
  - destruct (matchHeader hdr) as [[found isProp]|] eqn:Hh.
    + rewrite (processLines_header blanks hdr rest found isProp Hb Hh) in H.
      destruct (bodyLoop _ _ _ _) as [b|msg] eqn:Hl.
      * injection H as <-.
        apply bodyLoop_indented in Hl; [|apply noBlocks_indented].
        exfalso. revert He.
        now apply (emit_no_error (group "className" found) b).
      * injection H as <-. destruct Hin as [<-|[]]. reflexivity.
    + rewrite (processLines_no_header blanks hdr rest Hb Hn Hh) in H.
      injection H as <-. destruct Hin as [<-|[]]. reflexivity.
Qed.

Lemma X14_error_is_whole_output_witness :
  [lit ">>> ERROR: Error: Unexpected return type Qt::WindowFlags while processing C++ body."]
  = [lit ">>> ERROR: Error: Unexpected return type Qt::WindowFlags while processing C++ body."].
Proof.
  apply (X14_error_is_whole_output
           (lit "// CLASS: Foo" ++ nl ++ lit "// TODO: int add(int a, int b)"
            ++ nl ++ lit "// TODO: Qt::WindowFlags flags()")).
  - vm_compute. reflexivity.
  - now left.
  - right. reflexivity.
Defined.

(** X15 (a dereferenced argument is a pointer).  Whenever the argument
    loop has a statement for an argument whose type is in
    [DEREFERENCE_TYPES], the statement declares the name as a pointer
    taken from [getInternalInstance()], and the call passes [*name]. *)
Theorem X15_dereferenced_argument_is_pointer
  (i : nat) (arg : CppArgument) (stmt : str) :
  In (type arg) DEREFERENCE_TYPES ->
  argExtraction i arg = OK stmt ->
  contains (lit "* " ++ name arg ++ lit " = " ++ name arg
            ++ lit "Wrap->getInternalInstance();") stmt
  /\ callArgument arg = lit "*" ++ name arg.
Proof.
  intros Hin H. split; [now apply (argExtraction_dereferenced i)|].
  unfold callArgument. apply includes_In in Hin. now rewrite Hin.
Qed.

Lemma X15_dereferenced_argument_is_pointer_witness :
  contains (lit "* " ++ lit "size" ++ lit " = " ++ lit "size"
            ++ lit "Wrap->getInternalInstance();")
    (lit "  QSizeWrap* sizeWrap = Napi::ObjectWrap<QSizeWrap>::Unwrap(info[2].As<Napi::Object>());"
     ++ nl ++ lit "  QSize* size = sizeWrap->getInternalInstance();")
  /\ callArgument {| type := lit "const QSize"; name := lit "size" |}
     = lit "*" ++ lit "size".
Proof.
  apply (X15_dereferenced_argument_is_pointer 2
           {| type := lit "const QSize"; name := lit "size" |}).
  - apply includes_In. reflexivity.
  - vm_compute. reflexivity.
Defined.

(** X16 (the earlier drivers on blank input).  The [process] of the two
    earlier versions has the same first loop: when every line of the
    input is blank, a [TypeError] escapes and nothing is logged,
    whatever their [expandMethod] does. *)
Theorem X16_older_blank_input_throws
  (expandMethod : str -> str -> res value) (banner : bool)
  (inputString : str) :
  Forall blank (split 10%N inputString) ->
  Older.process expandMethod banner inputString =
    Uncaught [] (undefinedRead "trim").
Proof.
  intros H. unfold Older.process, Older.processLines.
  now rewrite (skipBlankLines_all_blank _ 0 H).
Qed.

Lemma X16_older_blank_input_throws_witness :
  Older.process (fun c s => OK (Gen.expandMethod c s)) true (nl ++ lit " ")
  = Uncaught [] (undefinedRead "trim").
Proof.
  apply (X16_older_blank_input_throws
           (fun c s => OK (Gen.expandMethod c s)) true (nl ++ lit " ")).
  vm_compute. repeat constructor.
Defined.

(** X17 (the earlier drivers fail fast).  In the [process] of the two
    earlier versions too, after a header and lines that are blank or
    expand to an [ok] result, the first line that is not blank and
    expands to a [failed] result makes [process] log the one
    [>>> ERROR:] line with its message and return, whatever follows. *)
Theorem X17_older_fail_fast
  (expandMethod : str -> str -> res value) (banner : bool)
  (inputString : str) (blanks : list str) (header : str) (found : captures)
  (valid : list str) (invalid : str) (more : list str) (message : value) :
  split 10%N inputString = blanks ++ header :: valid ++ invalid :: more ->
  Forall blank blanks ->
  search classNameRegex header = Some found ->
  Forall (fun l => blank l
                   \/ exists d n b t,
                        expandMethod (group "className" found) (trim l)
                        = OK (VOk d n b t))
         valid ->
  ~ blank invalid ->
  expandMethod (group "className" found) (trim invalid)
  = OK (VFailed message) ->
  Older.process expandMethod banner inputString =
    Returned [lit ">>> ERROR: " ++ toString message].
Proof.
  intros Hs Hb Hh Hv Hn He. unfold Older.process. rewrite Hs.
  rewrite (older_processLines_header expandMethod banner blanks header _
             found Hb Hh).
  now rewrite (older_bodyLoop_aborts expandMethod _ valid invalid more
                 message Hv Hn He).
Qed.

Lemma X17_older_fail_fast_witness :
  Older.process (fun c s => OK (expandProperty s)) false
    (lit "// CLASS: Foo" ++ nl ++ lit "// TODO: bool isEnabled()" ++ nl
     ++ lit "// TODO: Frobnicator zap()" ++ nl ++ lit "// TODO: int n()") =
    Returned [lit ">>> ERROR: Return type 'Frobnicator' is unknown for signature '// TODO: Frobnicator zap()'."].
Proof.
  apply (X17_older_fail_fast (fun c s => OK (expandProperty s)) false _ []
           (lit "// CLASS: Foo") [("className", lit "Foo")]
           [lit "// TODO: bool isEnabled()"]
           (lit "// TODO: Frobnicator zap()") [lit "// TODO: int n()"]
           (VString (lit "Return type 'Frobnicator' is unknown for signature '// TODO: Frobnicator zap()'."))).
  - vm_compute. reflexivity.
  - constructor.
  - vm_compute. reflexivity.
  - apply Forall_cons; [|apply Forall_nil]. right.
    eexists _, _, _, _. vm_compute. reflexivity.
  - unfold blank. vm_compute. discriminate.
  - vm_compute. reflexivity.
Defined.

(** X18 (a well-written batch completes).  In operation mode the second
    loop never aborts on lines written in the input format whose types
    all have their rules (supported types, no argument of type [QPoint],
    a return type other than [GLclampf], [Qt::ContextMenuPolicy] and
    [Qt::WindowFlags]) and whose names are identifiers: it completes
    with one fragment per line in each of the four arrays. *)
Theorem X18_well_written_batch_completes
  (className : str) (sigs : list MethodSignature) :
  Forall wellWritten sigs ->
  exists b,
    bodyLoop false className (map renderSignature sigs) noBlocks
    = Completed b
    /\ List.length (cppDeclaration b) = List.length sigs
    /\ List.length (napiInitBlock b) = List.length sigs
    /\ List.length (bodyBlock b) = List.length sigs
    /\ List.length (tsBlock b) = List.length sigs.
Proof.
  intros H.
  destruct (bodyLoop_wellWritten className sigs H noBlocks) as [b Hb].
  exists b. split; [assumption|].
  apply bodyLoop_operation_lengths in Hb.
  rewrite signatureLines_rendered, length_map in Hb. simpl in Hb. exact Hb.
Qed.

Lemma X18_well_written_batch_completes_witness :
  exists b,
    bodyLoop false (lit "Foo")
      [lit "// TODO: int add(int a, int b)";
       lit "// TODO: QSize sizeHint(const QModelIndex index)"] noBlocks
    = Completed b
    /\ List.length (cppDeclaration b) = 2
    /\ List.length (napiInitBlock b) = 2
    /\ List.length (bodyBlock b) = 2
    /\ List.length (tsBlock b) = 2.
Proof.
  apply (X18_well_written_batch_completes (lit "Foo")
           [{| args := [{| type := lit "int"; name := lit "a" |};
                        {| type := lit "int"; name := lit "b" |}];
               methodName := lit "add"; returnType := lit "int" |};
            {| args := [{| type := lit "const QModelIndex";
                           name := lit "index" |}];
               methodName := lit "sizeHint"; returnType := lit "QSize" |}]).
  repeat first
    [ apply Forall_nil
    | apply Forall_cons; [unfold wellWritten; cbv beta;
                          cbn [type name methodName returnType args]|]
    | split
    | apply identifier_check; reflexivity
    | match goal with
      | |- In _ _ => apply includes_In; reflexivity
      | |- ~ In _ _ =>
          let H := fresh in
          intros H; apply includes_In in H; vm_compute in H; discriminate H
      | |- _ <> _ =>
          let H := fresh in
          intros H; apply eqb_eq in H; vm_compute in H; discriminate H
      end ].
Defined.
